(** * Vanstein: the bytecode dispatch engine

    A shallow embedding of [vanstein/bytecode/engine.py]: the class
    [VansteinEngine] with its two methods [__run_natively] (the native-call
    bridge) and [run_context] (the dispatch loop), together with the lemmas
    that relate the engine to the natural-language specification.

    Execution frames (contexts) are Python objects that reference each other
    ([prev_ctx], [next_ctx], bound-method callbacks), so they live in a store
    indexed by references; every engine operation is a computation in a
    state-and-exception monad over that store. *)

From stdpp Require Import gmap strings list fin_maps.

Open Scope string_scope.
Open Scope list_scope.

(** ** Values on the operand stack *)

(** The engine classifies the callee of a call with [type(x) is type],
    [inspect.isbuiltin], [hasattr(x, "_native_invoke")], [isinstance(x,
    VSWrappedFunction)] and [callable]: the value type keeps exactly what
    those probes observe. *)
Inductive pyval : Type :=
| VNone
| VInt (n : Z)
| VStr (s : string)
| VBuiltin (name : string)
    (* a builtin function or method: [inspect.isbuiltin] holds *)
| VFunction (name : string) (native_invoke : bool)
    (* a plain function; the flag is [hasattr(f, "_native_invoke")] *)
| VWrapped (name : string)
    (* an instance of [VSWrappedFunction] *)
| VType (name : string) (new : pyval)
    (* an object whose type is [type]; [new] is its [__new__] attribute *)
| VObject (cls : string) (native_invoke : bool) (is_callable : bool).
    (* any other instance *)

Definition is_type (v : pyval) : bool :=
  match v with VType _ _ => true | _ => false end.

Definition isbuiltin (v : pyval) : bool :=
  match v with VBuiltin _ => true | _ => false end.

Definition has_native_invoke (v : pyval) : bool :=
  match v with
  | VFunction _ b => b
  | VObject _ b _ => b
  | _ => false
  end.

Definition is_wrapped_function (v : pyval) : bool :=
  match v with VWrapped _ => true | _ => false end.

Definition callable (v : pyval) : bool :=
  match v with
  | VBuiltin _ | VFunction _ _ | VWrapped _ | VType _ _ => true
  | VObject _ _ b => b
  | VNone | VInt _ | VStr _ => false
  end.

(** [bottom_of_stack.__new__] *)
Definition dunder_new (v : pyval) : pyval :=
  match v with VType _ new => new | _ => v end.

(** ** Exceptions *)

Inductive pyexc : Type :=
| TypeError_not_callable (fn : pyval)
    (* TypeError("'{}' object is not callable".format(fn)) *)
| TypeError (msg : string)
| IndexError (msg : string)
| NotImplementedError (opname : string)
| AttributeError (msg : string)
| ReferenceError
    (* a reference without an object: unreachable from a well-formed store *)
| NativeException (name : string).
    (* any exception raised by a host callable *)

(** ** Instructions and contexts *)

Record Instruction : Type := mkInstruction {
  opname : string;
  arg : option nat
}.

(** The call opcode, which the engine handles itself. *)
Definition CALL_FUNCTION (n : nat) : Instruction :=
  mkInstruction "CALL_FUNCTION" (Some n).

Inductive VSCtxState : Type :=
| SUSPENDED | RUNNING | FINISHED | ERRORED | PENDING.

Definition ref : Type := nat.

(** A callback is a bound method of a context: [ctx._on_result_cb] or
    [ctx._on_exception_cb]. *)
Inductive callback : Type :=
| on_result_cb (owner : ref)
| on_exception_cb (owner : ref).

Record VSContext : Type := mkContext {
  instructions : list Instruction;
  pointer : nat;
  stack : list pyval;               (* the top of the stack is the last item *)
  state : VSCtxState;
  prev_ctx : option ref;
  next_ctx : option ref;
  on_result_callbacks : list callback;
  on_exception_callbacks : list callback;
  pending_args : list pyval;
  fault : option pyexc
}.

Definition with_pointer (p : nat) (f : VSContext) : VSContext :=
  mkContext (instructions f) p (stack f) (state f) (prev_ctx f) (next_ctx f)
    (on_result_callbacks f) (on_exception_callbacks f) (pending_args f) (fault f).

Definition with_stack (s : list pyval) (f : VSContext) : VSContext :=
  mkContext (instructions f) (pointer f) s (state f) (prev_ctx f) (next_ctx f)
    (on_result_callbacks f) (on_exception_callbacks f) (pending_args f) (fault f).

Definition with_state (s : VSCtxState) (f : VSContext) : VSContext :=
  mkContext (instructions f) (pointer f) (stack f) s (prev_ctx f) (next_ctx f)
    (on_result_callbacks f) (on_exception_callbacks f) (pending_args f) (fault f).

Definition with_prev_ctx (p : option ref) (f : VSContext) : VSContext :=
  mkContext (instructions f) (pointer f) (stack f) (state f) p (next_ctx f)
    (on_result_callbacks f) (on_exception_callbacks f) (pending_args f) (fault f).

Definition with_next_ctx (n : option ref) (f : VSContext) : VSContext :=
  mkContext (instructions f) (pointer f) (stack f) (state f) (prev_ctx f) n
    (on_result_callbacks f) (on_exception_callbacks f) (pending_args f) (fault f).

Definition with_on_result_callbacks (l : list callback) (f : VSContext) : VSContext :=
  mkContext (instructions f) (pointer f) (stack f) (state f) (prev_ctx f) (next_ctx f)
    l (on_exception_callbacks f) (pending_args f) (fault f).

Definition with_on_exception_callbacks (l : list callback) (f : VSContext) : VSContext :=
  mkContext (instructions f) (pointer f) (stack f) (state f) (prev_ctx f) (next_ctx f)
    (on_result_callbacks f) l (pending_args f) (fault f).

Definition with_pending_args (a : list pyval) (f : VSContext) : VSContext :=
  mkContext (instructions f) (pointer f) (stack f) (state f) (prev_ctx f) (next_ctx f)
    (on_result_callbacks f) (on_exception_callbacks f) a (fault f).

Definition with_fault (e : option pyexc) (f : VSContext) : VSContext :=
  mkContext (instructions f) (pointer f) (stack f) (state f) (prev_ctx f) (next_ctx f)
    (on_result_callbacks f) (on_exception_callbacks f) (pending_args f) e.

(** ** The store and its monad *)

Abbreviation heap := (gmap ref VSContext).

Inductive outcome (A : Type) : Type :=
| Ok (a : A) (h : heap)
| Raise (e : pyexc) (h : heap).
Arguments Ok {A} a h.
Arguments Raise {A} e h.

Definition M (A : Type) : Type := heap -> outcome A.

Definition ret {A} (a : A) : M A := fun h => Ok a h.

Definition throw {A} (e : pyexc) : M A := fun h => Raise e h.

Definition bind {A B} (m : M A) (k : A -> M B) : M B :=
  fun h => match m h with
           | Ok a h' => k a h'
           | Raise e h' => Raise e h'
           end.

Notation "x <- c1 ;; c2" := (bind c1 (fun x => c2))
  (at level 100, c1 at next level, right associativity).
Notation "c1 ;; c2" := (bind c1 (fun _ => c2))
  (at level 100, right associativity).

(** An effect that cannot raise. *)
Definition lift (t : heap -> heap) : M unit := fun h => Ok tt (t h).

Definition get_ctx (c : ref) : M VSContext :=
  fun h => match h !! c with
           | Some f => Ok f h
           | None => Raise ReferenceError h
           end.

Definition update_ctx (c : ref) (t : VSContext -> VSContext) : M unit :=
  f <- get_ctx c ;; lift (<[c := t f]>).

(** [ctx.state = s], [ctx.prev_ctx = p], [ctx.next_ctx = n] *)
Definition set_state (c : ref) (s : VSCtxState) : M unit :=
  update_ctx c (with_state s).

Definition set_prev_ctx (c : ref) (p : option ref) : M unit :=
  update_ctx c (with_prev_ctx p).

Definition set_next_ctx (c : ref) (n : option ref) : M unit :=
  update_ctx c (with_next_ctx n).

(** [ctx.stack.pop()]: removes and returns the last item; IndexError on an
    empty stack. *)
Definition split_last (l : list pyval) : option (list pyval * pyval) :=
  match reverse l with
  | [] => None
  | v :: r => Some (reverse r, v)
  end.

Definition stack_pop (c : ref) : M pyval :=
  f <- get_ctx c ;;
  match split_last (stack f) with
  | None => throw (IndexError "pop from an empty deque")
  | Some (rest, v) => lift (<[c := with_stack rest f]>) ;; ret v
  end.

(** [ctx.stack[-k]]: the k-th item from the top; IndexError when the stack
    holds fewer than k items ([-0] is index 0). *)
Definition neg_index (l : list pyval) (k : nat) : option pyval :=
  match k with
  | 0 => l !! 0
  | S _ => if decide (k <= length l) then l !! (length l - k) else None
  end.

(** *** Methods of [_VSContext] *)

(** Modelled from the spec: [_VSContext.next_instruction] ([vanstein/context.py]
    is not among the sources).  "Fetch [instructions[pointer]]; this is the
    frame's current instruction", and the pointer advances by one past the
    fetched instruction; indexing past the end of the stream is Python's
    IndexError. *)
Definition next_instruction (c : ref) : M Instruction :=
  f <- get_ctx c ;;
  match instructions f !! pointer f with
  | None => throw (IndexError "list index out of range")
  | Some ins => lift (<[c := with_pointer (S (pointer f)) f]>) ;; ret ins
  end.

(** Modelled from the spec: [_VSContext.push] and [_VSContext.pop], the two
    ends of the "mutable last-in-first-out sequence of values". *)
Definition push (c : ref) (v : pyval) : M unit :=
  update_ctx c (fun f => with_stack (stack f ++ [v]) f).

Definition pop (c : ref) : M pyval := stack_pop c.

(** Modelled from the spec: [_VSContext.fill_args], "set its [pending_args]
    from the popped arguments". *)
Definition fill_args (c : ref) (args : list pyval) : M unit :=
  update_ctx c (with_pending_args args).

(** Modelled from the spec: [_VSContext.add_done_callback] and
    [_VSContext.add_exception_callback]; callbacks are kept "in registration
    order". *)
Definition add_done_callback (c : ref) (cb : callback) : M unit :=
  update_ctx c (fun f => with_on_result_callbacks (on_result_callbacks f ++ [cb]) f).

Definition add_exception_callback (c : ref) (cb : callback) : M unit :=
  update_ctx c (fun f => with_on_exception_callbacks (on_exception_callbacks f ++ [cb]) f).

(** Allocation of a new context object. *)
Definition alloc (f : VSContext) : M ref :=
  fun h => let r := fresh (dom h) in Ok r (<[r := f]> h).

(** [for x in range(0, n): args.append(pop())]: the items in the order they
    were popped. *)
Fixpoint pop_n (popper : M pyval) (n : nat) : M (list pyval) :=
  match n with
  | 0 => ret []
  | S n' => v <- popper ;; vs <- pop_n popper n' ;; ret (v :: vs)
  end.

(** ** The engine *)

(** What one turn of the dispatch loop decides: go round again
    ([continue] or falling off the end of the loop body), or [return]. *)
Inductive control : Type :=
| Continue
| Return (r : option ref).

(** What a call of [run_context] amounts to: it returns a context or [None],
    an exception leaves it, or the loop is still turning when the fuel runs
    out. *)
Inductive result : Type :=
| Returned (r : option ref) (h : heap)
| Raised (e : pyexc) (h : heap)
| OutOfFuel (h : heap).

(** The outcome of calling a host function [fn( *args )]. *)
Inductive native_result : Type :=
| NReturn (v : pyval)
| NRaise (e : pyexc).

Section Engine.

(** The collaborators of the engine that live in other modules of the
    package.  The engine is verified for every choice of them. *)

(** [getattr(instructions, opname)]: the handler table; [None] is
    AttributeError. *)
Variable handlers : string -> option (ref -> Instruction -> M unit).

(** [fn( *args )] for a host callable.  Host callables are taken not to
    touch the contexts, as the specification assumes of them. *)
Variable call_native : pyval -> list pyval -> native_result.

(** [vs_exceptions.safe_raise(context, exception)]: the fault channel. *)
Variable safe_raise : ref -> pyexc -> heap -> heap.

(** [context.finish()] *)
Variable finish : ref -> heap -> heap.

(** [_VSContext(function)] and the call [wrapped()] of a
    [VSWrappedFunction]: either raises or builds the contents of a new
    context object. *)
Variable VSContext_init : pyval -> pyexc + VSContext.
Variable VSWrappedFunction_call : pyval -> pyexc + VSContext.

Definition construct (r : pyexc + VSContext) : M ref :=
  match r with
  | inl e => throw e
  | inr f => alloc f
  end.

(** [VansteinEngine.__run_natively] *)
Definition run_natively (context : ref) (instruction : Instruction) : M pyval :=
  match arg instruction with
  | None => throw (TypeError "'NoneType' object cannot be interpreted as an integer")
  | Some number_of_args =>
      args <- pop_n (stack_pop context) number_of_args ;;
      let args := reverse args in
      fn <- stack_pop context ;;
      if negb (callable fn) then
        lift (safe_raise context (TypeError_not_callable fn)) ;;
        ret VNone
      else
        match call_native fn args with
        | NRaise e =>
            lift (safe_raise context e) ;;
            ret VNone
        | NReturn result => ret result
        end
  end.

(** The body of the [if next_instruction.opname == "CALL_FUNCTION"] block
    of [run_context]. *)
Definition call_function (context : ref) (next_instruction : Instruction)
  : M control :=
  set_state context SUSPENDED ;;
  f <- get_ctx context ;;
  match arg next_instruction with
  | None => throw (TypeError "unsupported operand type(s) for +: 'NoneType' and 'int'")
  | Some n =>
      match neg_index (stack f) (n + 1) with
      | None => throw (IndexError "deque index out of range")
      | Some bottom_of_stack =>
          let bottom_of_stack :=
            if is_type bottom_of_stack then dunder_new bottom_of_stack
            else bottom_of_stack in
          if isbuiltin bottom_of_stack || has_native_invoke bottom_of_stack then
            result <- run_natively context next_instruction ;;
            set_state context RUNNING ;;
            push context result ;;
            ret Continue
          else
            new_ctx <-
              (if is_wrapped_function bottom_of_stack
               then construct (VSWrappedFunction_call bottom_of_stack)
               else construct (VSContext_init bottom_of_stack)) ;;
            set_prev_ctx new_ctx (Some context) ;;
            set_next_ctx context (Some new_ctx) ;;
            set_state new_ctx PENDING ;;
            add_done_callback new_ctx (on_result_cb context) ;;
            add_exception_callback new_ctx (on_exception_cb context) ;;
            args <- pop_n (pop context) n ;;
            let args := reverse args in
            fill_args new_ctx args ;;
            pop context ;;
            ret (Return (Some new_ctx))
      end
  end.

(** One turn of the [while True] loop of [run_context].  The assertion that
    the fetched object is an instruction holds by typing. *)
Definition dispatch (context : ref) : M control :=
  f <- get_ctx context ;;
  match state f with
  | FINISHED => lift (finish context) ;; ret (Return None)
  | ERRORED => ret (Return None)
  | _ =>
      next_instruction <- next_instruction context ;;
      if String.eqb (opname next_instruction) "CALL_FUNCTION" then
        call_function context next_instruction
      else
        match handlers (opname next_instruction) with
        | None => throw (NotImplementedError (opname next_instruction))
        | Some i => i context next_instruction ;; ret Continue
        end
  end.

Fixpoint run_loop (fuel : nat) (context : ref) (h : heap) : result :=
  match fuel with
  | 0 => OutOfFuel h
  | S fuel' =>
      match dispatch context h with
      | Ok Continue h' => run_loop fuel' context h'
      | Ok (Return r) h' => Returned r h'
      | Raise e h' => Raised e h'
      end
  end.

(** [VansteinEngine.run_context].  The two fields of the engine object,
    [current_context] and [current_instruction], are only ever written by
    this module and are left out. *)
Definition run_context (fuel : nat) (context : ref) (h : heap) : result :=
  match set_state context RUNNING h with
  | Ok _ h' => run_loop fuel context h'
  | Raise e h' => Raised e h'
  end.

(** The contents of the callee's context, as the engine obtains them. *)
Definition new_context_for (target : pyval) : pyexc + VSContext :=
  if is_wrapped_function target then VSWrappedFunction_call target
  else VSContext_init target.

End Engine.

(** ** Describing the context switch *)

(** The caller as the switch leaves it, and the callee as it is handed to
    the driver. *)
Definition suspended_caller (f : VSContext) (below : list pyval) (new : ref)
  : VSContext :=
  with_stack below (with_next_ctx (Some new) (with_state SUSPENDED f)).

Definition pending_callee (nf : VSContext) (caller : ref) (args : list pyval)
  : VSContext :=
  mkContext (instructions nf) (pointer nf) (stack nf) PENDING
    (Some caller) (next_ctx nf)
    (on_result_callbacks nf ++ [on_result_cb caller])
    (on_exception_callbacks nf ++ [on_exception_cb caller])
    args (fault nf).

(** The callee as the engine classifies it: a class stands for its
    [__new__]. *)
Definition dispatch_target (callee : pyval) : pyval :=
  if is_type callee then dunder_new callee else callee.

Definition is_native (callee : pyval) : bool :=
  isbuiltin (dispatch_target callee) || has_native_invoke (dispatch_target callee).


(** A context the loop goes on dispatching: one that is neither FINISHED nor
    ERRORED at the top of the loop. *)
Definition is_live (s : VSCtxState) : bool :=
  match s with
  | FINISHED | ERRORED => false
  | SUSPENDED | RUNNING | PENDING => true
  end.

Definition live (s : VSCtxState) : Prop := is_live s = true.

(** The caller and callee links of a context, and its observable fields. *)
Definition ctx_links (h : heap) (c : ref) : option (option ref * option ref) :=
  (fun f => (prev_ctx f, next_ctx f)) <$> h !! c.

Definition ctx_state (h : heap) (c : ref) : option VSCtxState :=
  state <$> h !! c.

Definition ctx_stack (h : heap) (c : ref) : option (list pyval) :=
  stack <$> h !! c.

Definition ctx_pointer (h : heap) (c : ref) : option nat :=
  pointer <$> h !! c.

Definition ctx_fault (h : heap) (c : ref) : option (option pyexc) :=
  fault <$> h !! c.

(** ** The collaborators, as the specification describes them *)

(** Modelled from the spec: [vs_exceptions.safe_raise] is not among the
    sources.  "Fault channel: [raise(frame, fault)]: if the frame has a
    registered exception callback chain, routes the fault there
    (transition-and-notify); otherwise marks the frame ERRORED with the fault
    attached for external inspection."  The exception callback that the
    engine registers "propagates the fault onto" the caller, so the fault
    climbs the caller chain; the fuel bounds the climb. *)
Fixpoint raise_into (fuel : nat) (c : ref) (e : pyexc) (h : heap) : heap :=
  match h !! c with
  | None => h
  | Some f =>
      let h1 := <[c := with_fault (Some e) (with_state ERRORED f)]> h in
      match fuel with
      | 0 => h1
      | S fuel' =>
          foldl (fun h' cb =>
                   match cb with
                   | on_exception_cb owner => raise_into fuel' owner e h'
                   | on_result_cb _ => h'
                   end) h1 (on_exception_callbacks f)
      end
  end.

Definition safe_raise_spec (c : ref) (e : pyexc) (h : heap) : heap :=
  raise_into (size h) c e h.

(** Modelled from the spec: [_VSContext.finish] is not among the sources.
    "When a callee frame reaches FINISHED, its result callback pushes exactly
    one value onto the caller's [operand_stack] and the caller transitions
    SUSPENDED -> RUNNING"; callbacks fire "in registration order".  The
    delivered value is the one the return instruction left on top of the
    stack. *)
Definition deliver_result (v : pyval) (h : heap) (cb : callback) : heap :=
  match cb with
  | on_result_cb owner =>
      match h !! owner with
      | Some g => <[owner := with_state RUNNING (with_stack (stack g ++ [v]) g)]> h
      | None => h
      end
  | on_exception_cb _ => h
  end.

Definition finish_spec (c : ref) (h : heap) : heap :=
  match h !! c with
  | None => h
  | Some f =>
      foldl (deliver_result (default VNone (last (stack f)))) h
        (on_result_callbacks f)
  end.

(** ** A small world to run the engine in *)

(** Modelled from the spec: the handler table ([vanstein/bytecode/instructions.py])
    is not among the sources.  Two handlers stand in for it: "a return
    instruction is executed" takes the context from RUNNING to FINISHED, and
    POP_TOP drops the top of the stack.  Every other opcode is absent. *)
Definition sample_handlers (name : string)
  : option (ref -> Instruction -> M unit) :=
  if String.eqb name "RETURN_VALUE" then
    Some (fun c _ => set_state c FINISHED)
  else if String.eqb name "POP_TOP" then
    Some (fun c _ => _ <- pop c ;; ret tt)
  else None.

(** Host functions: [add] adds two integers, [fail] always raises, [int] is
    the integer class called with no argument. *)
Definition sample_call_native (fn : pyval) (args : list pyval) : native_result :=
  match fn, args with
  | VBuiltin name, [VInt a; VInt b] =>
      if String.eqb name "add" then NReturn (VInt (a + b))
      else NRaise (NativeException "ValueError")
  | VType name _, [] =>
      if String.eqb name "int" then NReturn (VInt 0)
      else NRaise (NativeException "ValueError")
  | _, _ => NRaise (NativeException "ValueError")
  end.

Definition blank_context (code : list Instruction) : VSContext :=
  mkContext code 0 [] PENDING None None [] [] [] None.

(** Every interpreted function of the sample world has the body [return]. *)
Definition RETURN_VALUE : Instruction := mkInstruction "RETURN_VALUE" None.

Definition sample_code : list Instruction := [RETURN_VALUE].

(** The constructors of the sample world accept functions and wrapped
    functions and raise on anything else. *)
Definition sample_VSContext_init (fn : pyval) : pyexc + VSContext :=
  match fn with
  | VFunction _ _ => inr (blank_context sample_code)
  | _ => inl (AttributeError "object has no attribute '__code__'")
  end.

Definition sample_wrapped_call (fn : pyval) : pyexc + VSContext :=
  match fn with
  | VWrapped _ => inr (blank_context sample_code)
  | _ => inl (TypeError "object is not callable")
  end.

(** A root context about to run [code] on the given stack. *)
Definition root_context (code : list Instruction) (stk : list pyval)
  (st : VSCtxState) : VSContext :=
  mkContext code 0 stk st None None [] [] [] None.

Definition one_context (f : VSContext) : heap := {[ 0 := f ]}.

(** A root context whose first instruction calls [callee] on [args]. *)
Definition call_site (callee : pyval) (args : list pyval) : heap :=
  one_context
    (root_context [CALL_FUNCTION (length args); RETURN_VALUE]
       (callee :: args) PENDING).

(** The engine in the sample world. *)
Definition sample_run_context : nat -> ref -> heap -> result :=
  run_context sample_handlers sample_call_native safe_raise_spec finish_spec
    sample_VSContext_init sample_wrapped_call.

Definition sample_run_loop : nat -> ref -> heap -> result :=
  run_loop sample_handlers sample_call_native safe_raise_spec finish_spec
    sample_VSContext_init sample_wrapped_call.

Definition sample_dispatch : ref -> M control :=
  dispatch sample_handlers sample_call_native safe_raise_spec finish_spec
    sample_VSContext_init sample_wrapped_call.


(** ** What the specification asks, where the engine does otherwise *)

(** What the specification asks of a call of [run_context] on a context that
    is already FINISHED or ERRORED: it returns [None] and the store is as it
    was. *)
Definition is_noop (r : result) (h : heap) : Prop := r = Returned None h.

(** What the specification asks after an unsupported opcode: the context is
    not left RUNNING. *)
Definition not_left_running (r : result) (c : ref) : Prop :=
  match r with
  | Returned _ h | Raised _ h | OutOfFuel h => ctx_state h c <> Some RUNNING
  end.


(** ** Stores left behind, and the shape of the caller chain *)

(** The store an operation leaves, whether it returned or raised. *)
Definition store {A} (o : outcome A) : heap :=
  match o with
  | Ok _ h => h
  | Raise _ h => h
  end.

Definition result_store (r : result) : heap :=
  match r with
  | Returned _ h => h
  | Raised _ h => h
  | OutOfFuel h => h
  end.

(** Two stores with the same contexts and the same links in each. *)
Definition same_links (h h' : heap) : Prop :=
  forall x, ctx_links h' x = ctx_links h x.

(** The chain of contexts is well linked when every [prev_ctx] points to a
    context of the store and every [next_ctx] points to a context whose
    [prev_ctx] points back. *)
Definition well_linked (h : heap) : Prop :=
  forall x f, h !! x = Some f ->
    (forall p, prev_ctx f = Some p -> is_Some (h !! p))
    /\ (forall n, next_ctx f = Some n ->
          exists g, h !! n = Some g /\ prev_ctx g = Some x).

(** [h'] keeps every context of [h], each with the instruction stream it had
    in [h]. *)
Definition keeps_code (h h' : heap) : Prop :=
  forall x f, h !! x = Some f ->
    exists f', h' !! x = Some f' /\ instructions f' = instructions f.

(** An operation that keeps the contexts and their code, whichever way it
    ends. *)
Definition steady {A} (m : M A) : Prop :=
  forall h, keeps_code h (store (m h)).

(** ** The engine object *)

(** The two fields of a [VansteinEngine].  [run_context] writes them and
    never reads them, so the run itself is [run_context] above; here the
    writes are followed next to it. *)
Record VansteinEngine : Type := mkEngine {
  current_instruction : option Instruction;
  current_context : option ref
}.

(** [VansteinEngine.__init__] *)
Definition VansteinEngine_init : VansteinEngine := mkEngine None None.

(** The instruction a turn of the loop fetches, when it gets as far as
    fetching: the context is there, it is neither FINISHED nor ERRORED, and
    its pointer is inside the instruction stream. *)
Definition fetched (context : ref) (h : heap) : option Instruction :=
  match h !! context with
  | Some f => if is_live (state f) then instructions f !! pointer f else None
  | None => None
  end.

Section EngineObject.

Variable handlers : string -> option (ref -> Instruction -> M unit).
Variable call_native : pyval -> list pyval -> native_result.
Variable safe_raise : ref -> pyexc -> heap -> heap.
Variable finish : ref -> heap -> heap.
Variable VSContext_init : pyval -> pyexc + VSContext.
Variable VSWrappedFunction_call : pyval -> pyexc + VSContext.

(** The loop of [run_context] with [self]: every turn that fetches an
    instruction assigns it to [self.current_instruction] before anything
    else is done with it. *)
Fixpoint VansteinEngine_loop (fuel : nat) (self : VansteinEngine)
    (context : ref) (h : heap) : VansteinEngine * result :=
  match fuel with
  | 0 => (self, OutOfFuel h)
  | S fuel' =>
      let self' :=
        match fetched context h with
        | Some next_instruction =>
            mkEngine (Some next_instruction) (current_context self)
        | None => self
        end in
      match dispatch handlers call_native safe_raise finish
              VSContext_init VSWrappedFunction_call context h with
      | Ok Continue h' => VansteinEngine_loop fuel' self' context h'
      | Ok (Return r) h' => (self', Returned r h')
      | Raise e h' => (self', Raised e h')
      end
  end.

(** [VansteinEngine.run_context] with [self]: the state is set, then
    [self.current_context], then the loop runs. *)
Definition VansteinEngine_run_context (fuel : nat) (self : VansteinEngine)
    (context : ref) (h : heap) : VansteinEngine * result :=
  match set_state context RUNNING h with
  | Ok _ h' =>
      VansteinEngine_loop fuel
        (mkEngine (current_instruction self) (Some context)) context h'
  | Raise e h' => (self, Raised e h')
  end.

End EngineObject.
(** ** Reasoning about the store monad *)

Lemma bind_ok {A B} (m : M A) (k : A -> M B) h a h' :
  m h = Ok a h' -> bind m k h = k a h'.
Proof. unfold bind. intros ->. reflexivity. Qed.

Lemma bind_raise {A B} (m : M A) (k : A -> M B) h e h' :
  m h = Raise e h' -> bind m k h = Raise e h'.
Proof. unfold bind. intros ->. reflexivity. Qed.

Lemma get_ctx_ok (h : heap) c f :
  h !! c = Some f -> get_ctx c h = Ok f h.
Proof. unfold get_ctx. intros ->. reflexivity. Qed.

Lemma update_ctx_ok (h : heap) c t f :
  h !! c = Some f -> update_ctx c t h = Ok tt (<[c := t f]> h).
Proof.
  intros Hc. unfold update_ctx.
  rewrite (bind_ok _ _ _ _ _ (get_ctx_ok _ _ _ Hc)). reflexivity.
Qed.

Lemma set_state_ok (h : heap) c s f :
  h !! c = Some f -> set_state c s h = Ok tt (<[c := with_state s f]> h).
Proof. apply update_ctx_ok. Qed.

Lemma with_stack_same f : with_stack (stack f) f = f.
Proof. destruct f; reflexivity. Qed.

Lemma split_last_snoc l v : split_last (l ++ [v]) = Some (l, v).
Proof.
  unfold split_last. rewrite reverse_snoc. simpl.
  rewrite reverse_involutive. reflexivity.
Qed.

Lemma stack_pop_ok (h : heap) c f l v :
  h !! c = Some f -> stack f = l ++ [v] ->
  stack_pop c h = Ok v (<[c := with_stack l f]> h).
Proof.
  intros Hc Hs. unfold stack_pop.
  rewrite (bind_ok _ _ _ _ _ (get_ctx_ok _ _ _ Hc)).
  rewrite Hs, split_last_snoc. reflexivity.
Qed.

Lemma stack_pop_empty (h : heap) c f :
  h !! c = Some f -> stack f = [] ->
  stack_pop c h = Raise (IndexError "pop from an empty deque") h.
Proof.
  intros Hc Hs. unfold stack_pop.
  rewrite (bind_ok _ _ _ _ _ (get_ctx_ok _ _ _ Hc)).
  rewrite Hs. reflexivity.
Qed.

(** Popping [length args] items off a stack [l ++ args] returns them top
    first and leaves [l]. *)
Lemma pop_n_ok c args : forall (h : heap) f l,
  h !! c = Some f -> stack f = l ++ args ->
  pop_n (stack_pop c) (length args) h
  = Ok (reverse args) (<[c := with_stack l f]> h).
Proof.
  induction args as [|v args IH] using rev_ind; intros h f l Hc Hs.
  - simpl. rewrite app_nil_r in Hs. rewrite <- Hs, with_stack_same.
    rewrite insert_id by assumption. reflexivity.
  - rewrite length_app, Nat.add_1_r. simpl.
    rewrite app_assoc in Hs.
    rewrite (bind_ok _ _ _ _ _ (stack_pop_ok _ _ _ _ _ Hc Hs)).
    erewrite bind_ok; cycle 1.
    { apply (IH _ (with_stack (l ++ args) f) l).
      - apply lookup_insert_eq.
      - reflexivity. }
    rewrite insert_insert_eq, reverse_snoc. reflexivity.
Qed.

Lemma neg_index_callee l callee args :
  neg_index (l ++ callee :: args) (length args + 1) = Some callee.
Proof.
  unfold neg_index. rewrite Nat.add_1_r.
  rewrite decide_True by (rewrite length_app; simpl; lia).
  replace (length (l ++ callee :: args) - S (length args)) with (length l + 0)
    by (rewrite length_app; simpl; lia).
  rewrite lookup_app_r by lia.
  replace (length l + 0 - length l) with 0 by lia. reflexivity.
Qed.

Lemma neg_index_short l n :
  length l < n -> neg_index l n = None.
Proof.
  intros Hlt. unfold neg_index. destruct n as [|n]; [lia|].
  rewrite decide_False by lia. reflexivity.
Qed.

Ltac solve_lookup :=
  repeat first
    [ rewrite lookup_insert_eq
    | rewrite lookup_insert_ne by congruence ];
  first [ reflexivity | eassumption ].

Ltac step_update :=
  erewrite bind_ok; [| apply update_ctx_ok; solve_lookup ].

Lemma fresh_ref_ne (h : heap) c f :
  h !! c = Some f -> fresh (dom h) <> c.
Proof.
  intros Hc Heq. apply (is_fresh (dom h)). rewrite Heq.
  apply elem_of_dom. eauto.
Qed.

Lemma dom_update (h : heap) c f g :
  h !! c = Some f -> dom (<[c := g]> h) = dom h.
Proof. intros Hc. apply dom_insert_lookup_L. eauto. Qed.

Section EngineFacts.

Context (handlers : string -> option (ref -> Instruction -> M unit))
        (call_native : pyval -> list pyval -> native_result)
        (safe_raise : ref -> pyexc -> heap -> heap)
        (finish : ref -> heap -> heap)
        (VSContext_init VSWrappedFunction_call : pyval -> pyexc + VSContext).

Local Abbreviation run_natively' := (run_natively call_native safe_raise).
Local Abbreviation call_function' :=
  (call_function call_native safe_raise VSContext_init VSWrappedFunction_call).
Local Abbreviation dispatch' :=
  (dispatch handlers call_native safe_raise finish
     VSContext_init VSWrappedFunction_call).
Local Abbreviation run_loop' :=
  (run_loop handlers call_native safe_raise finish
     VSContext_init VSWrappedFunction_call).
Local Abbreviation new_context_for' :=
  (new_context_for VSContext_init VSWrappedFunction_call).
Local Abbreviation run_context' :=
  (run_context handlers call_native safe_raise finish
     VSContext_init VSWrappedFunction_call).

Lemma call_function_interpreted (h : heap) c f op below callee args nf :
  h !! c = Some f ->
  stack f = below ++ callee :: args ->
  is_native callee = false ->
  new_context_for' (dispatch_target callee) = inr nf ->
  call_function' c (mkInstruction op (Some (length args))) h
  = Ok (Return (Some (fresh (dom h))))
       (<[c := suspended_caller f below (fresh (dom h))]>
          (<[fresh (dom h) := pending_callee nf c args]> h)).
Proof.
  intros Hc Hs Hnat Hnew.
  pose proof (fresh_ref_ne h c f Hc) as Hne.
  unfold call_function.
  rewrite (bind_ok _ _ _ _ _ (set_state_ok _ _ SUSPENDED _ Hc)).
  erewrite bind_ok by (apply get_ctx_ok; solve_lookup).
  cbn [arg]. replace (stack (with_state SUSPENDED f)) with (stack f) by reflexivity.
  rewrite Hs, neg_index_callee.
  fold (dispatch_target callee).
  unfold is_native in Hnat. rewrite Hnat.
  unfold new_context_for in Hnew.
  erewrite (bind_ok (if is_wrapped_function (dispatch_target callee)
                     then _ else _)); cycle 1.
  { instantiate (1 := <[fresh (dom h) := nf]> (<[c := with_state SUSPENDED f]> h)).
    instantiate (1 := fresh (dom h)).
    destruct (is_wrapped_function (dispatch_target callee));
      rewrite Hnew; unfold construct, alloc;
      rewrite (dom_update _ _ _ _ Hc); reflexivity. }
  unfold set_prev_ctx, set_next_ctx, set_state, add_done_callback,
    add_exception_callback, fill_args.
  do 5 step_update.
  erewrite bind_ok; cycle 1.
  { unfold pop.
    eapply (pop_n_ok c args _ _ (below ++ [callee])); [solve_lookup|].
    cbn. rewrite Hs, <- app_assoc. reflexivity. }
  step_update.
  erewrite bind_ok; cycle 1.
  { unfold pop. eapply stack_pop_ok; [solve_lookup|]. reflexivity. }
  unfold ret. f_equal.
  rewrite reverse_involutive.
  apply map_eq. intros i.
  destruct (decide (i = c)) as [->|Hic];
    [|destruct (decide (i = fresh (dom h))) as [->|Hin]];
    simplify_map_eq; try reflexivity.
Qed.


(** *** Fetching and the two branches of a turn *)

Lemma next_instruction_ok (h : heap) c f ins :
  h !! c = Some f ->
  instructions f !! pointer f = Some ins ->
  next_instruction c h = Ok ins (<[c := with_pointer (S (pointer f)) f]> h).
Proof.
  intros Hc Hins. unfold next_instruction.
  rewrite (bind_ok _ _ _ _ _ (get_ctx_ok _ _ _ Hc)), Hins. reflexivity.
Qed.

Lemma dispatch_fetch (h : heap) c f ins :
  h !! c = Some f -> live (state f) ->
  instructions f !! pointer f = Some ins ->
  dispatch' c h
  = (if String.eqb (opname ins) "CALL_FUNCTION" then call_function' c ins
     else match handlers (opname ins) with
          | None => throw (NotImplementedError (opname ins))
          | Some i => i c ins ;; ret Continue
          end) (<[c := with_pointer (S (pointer f)) f]> h).
Proof.
  intros Hc Hlive Hins. unfold dispatch.
  rewrite (bind_ok _ _ _ _ _ (get_ctx_ok _ _ _ Hc)).
  unfold live in Hlive.
  destruct (state f); try discriminate Hlive;
    rewrite (bind_ok _ _ _ _ _ (next_instruction_ok _ _ _ _ Hc Hins));
    reflexivity.
Qed.

Lemma run_context_unfold fuel (h : heap) c f :
  h !! c = Some f ->
  run_context' fuel c h = run_loop' fuel c (<[c := with_state RUNNING f]> h).
Proof.
  intros Hc. unfold run_context.
  rewrite (set_state_ok _ _ _ _ Hc). reflexivity.
Qed.

(** A turn of the loop at a call of an interpreted callee. *)
Lemma dispatch_call_interpreted (h : heap) c f below callee args nf :
  h !! c = Some f -> live (state f) ->
  instructions f !! pointer f = Some (CALL_FUNCTION (length args)) ->
  stack f = below ++ callee :: args ->
  is_native callee = false ->
  new_context_for' (dispatch_target callee) = inr nf ->
  dispatch' c h
  = Ok (Return (Some (fresh (dom h))))
      (<[c := suspended_caller (with_pointer (S (pointer f)) f) below
                (fresh (dom h))]>
         (<[fresh (dom h) := pending_callee nf c args]> h)).
Proof.
  intros Hc Hlive Hins Hs Hnat Hnew.
  rewrite (dispatch_fetch _ _ _ _ Hc Hlive Hins). cbn [opname CALL_FUNCTION].
  rewrite String.eqb_refl.
  unfold CALL_FUNCTION.
  erewrite call_function_interpreted; [| solve_lookup | exact Hs | exact Hnat | exact Hnew].
  rewrite (dom_update _ _ _ _ Hc). f_equal.
  rewrite (insert_insert_ne _ (fresh (dom h)) c)
    by (apply (fresh_ref_ne _ _ _ Hc)).
  rewrite insert_insert_eq. reflexivity.
Qed.


(** *** The bridge *)

(** The heap in which the bridge has popped the arguments and the callee. *)
Lemma run_natively_ok (h : heap) c f op below fn args :
  h !! c = Some f ->
  stack f = below ++ fn :: args ->
  run_natively' c (mkInstruction op (Some (length args))) h
  = let hp := <[c := with_stack below f]> h in
    if negb (callable fn) then
      Ok VNone (safe_raise c (TypeError_not_callable fn) hp)
    else match call_native fn args with
         | NRaise e => Ok VNone (safe_raise c e hp)
         | NReturn v => Ok v hp
         end.
Proof.
  intros Hc Hs. unfold run_natively. cbn [arg].
  erewrite bind_ok; cycle 1.
  { eapply (pop_n_ok c args _ _ (below ++ [fn])); [exact Hc|].
    rewrite Hs, <- app_assoc. reflexivity. }
  erewrite bind_ok; cycle 1.
  { eapply stack_pop_ok; [solve_lookup | reflexivity]. }
  rewrite insert_insert_eq, reverse_involutive. cbn zeta.
  replace (with_stack below (with_stack (below ++ [fn]) f))
    with (with_stack below f) by reflexivity.
  destruct (callable fn); cbn [negb].
  - destruct (call_native fn args); reflexivity.
  - reflexivity.
Qed.

Lemma call_function_native (h : heap) c f op below callee args :
  h !! c = Some f ->
  stack f = below ++ callee :: args ->
  is_native callee = true ->
  call_function' c (mkInstruction op (Some (length args))) h
  = (result <- run_natively' c (mkInstruction op (Some (length args))) ;;
     set_state c RUNNING ;;
     push c result ;;
     ret Continue) (<[c := with_state SUSPENDED f]> h).
Proof.
  intros Hc Hs Hnat. unfold call_function.
  rewrite (bind_ok _ _ _ _ _ (set_state_ok _ _ SUSPENDED _ Hc)).
  erewrite bind_ok by (apply get_ctx_ok; solve_lookup).
  cbn [arg]. replace (stack (with_state SUSPENDED f)) with (stack f) by reflexivity.
  rewrite Hs, neg_index_callee.
  fold (dispatch_target callee).
  unfold is_native in Hnat. rewrite Hnat. reflexivity.
Qed.

Lemma call_function_constructor_raises (h : heap) c f op below callee args e :
  h !! c = Some f ->
  stack f = below ++ callee :: args ->
  is_native callee = false ->
  new_context_for' (dispatch_target callee) = inl e ->
  call_function' c (mkInstruction op (Some (length args))) h
  = Raise e (<[c := with_state SUSPENDED f]> h).
Proof.
  intros Hc Hs Hnat Hnew. unfold call_function.
  rewrite (bind_ok _ _ _ _ _ (set_state_ok _ _ SUSPENDED _ Hc)).
  erewrite bind_ok by (apply get_ctx_ok; solve_lookup).
  cbn [arg]. replace (stack (with_state SUSPENDED f)) with (stack f) by reflexivity.
  rewrite Hs, neg_index_callee.
  fold (dispatch_target callee).
  unfold is_native in Hnat. rewrite Hnat.
  unfold new_context_for in Hnew.
  apply bind_raise.
  destruct (is_wrapped_function (dispatch_target callee)); rewrite Hnew;
    reflexivity.
Qed.

Lemma call_function_short_stack (h : heap) c f op n :
  h !! c = Some f ->
  length (stack f) <= n ->
  call_function' c (mkInstruction op (Some n)) h
  = Raise (IndexError "deque index out of range")
      (<[c := with_state SUSPENDED f]> h).
Proof.
  intros Hc Hlen. unfold call_function.
  rewrite (bind_ok _ _ _ _ _ (set_state_ok _ _ SUSPENDED _ Hc)).
  erewrite bind_ok by (apply get_ctx_ok; solve_lookup).
  cbn [arg]. replace (stack (with_state SUSPENDED f)) with (stack f) by reflexivity.
  rewrite neg_index_short by lia. reflexivity.
Qed.

(** A turn of the loop at a call of a native callee, in full. *)
Lemma dispatch_call_native (h : heap) c f below callee args :
  h !! c = Some f -> live (state f) ->
  instructions f !! pointer f = Some (CALL_FUNCTION (length args)) ->
  stack f = below ++ callee :: args ->
  is_native callee = true ->
  dispatch' c h
  = (result <- run_natively' c (CALL_FUNCTION (length args)) ;;
     set_state c RUNNING ;;
     push c result ;;
     ret Continue)
      (<[c := with_state SUSPENDED (with_pointer (S (pointer f)) f)]> h).
Proof.
  intros Hc Hlive Hins Hs Hnat.
  rewrite (dispatch_fetch _ _ _ _ Hc Hlive Hins). cbn [opname CALL_FUNCTION].
  rewrite String.eqb_refl. unfold CALL_FUNCTION.
  erewrite call_function_native; [| solve_lookup | exact Hs | exact Hnat].
  rewrite insert_insert_eq. reflexivity.
Qed.


(** After the bridge: [context.state = RUNNING; context.push(result)]. *)
Lemma resume_after_bridge (h : heap) c f v :
  h !! c = Some f ->
  (set_state c RUNNING ;; push c v ;; ret Continue) h
  = Ok Continue (<[c := with_stack (stack f ++ [v]) (with_state RUNNING f)]> h).
Proof.
  intros Hc. unfold set_state, push.
  do 2 step_update. rewrite insert_insert_eq. reflexivity.
Qed.

(** The bridge returns normally, and changes the links of the context only
    if the fault channel does. *)
Lemma run_natively_links (h : heap) c f op below fn args :
  (forall e h0, ctx_links (safe_raise c e h0) c = ctx_links h0 c) ->
  h !! c = Some f ->
  stack f = below ++ fn :: args ->
  exists v h3,
    run_natively' c (mkInstruction op (Some (length args))) h = Ok v h3
    /\ ctx_links h3 c = ctx_links h c.
Proof.
  intros Hsr Hc Hs.
  rewrite (run_natively_ok _ _ _ op _ _ _ Hc Hs). cbn zeta.
  assert (Hp : ctx_links (<[c := with_stack below f]> h) c = ctx_links h c).
  { unfold ctx_links. rewrite lookup_insert_eq, Hc. reflexivity. }
  destruct (callable fn); cbn [negb].
  - destruct (call_native fn args) as [v|e].
    + eauto.
    + eexists _, _. split; [reflexivity|]. rewrite Hsr. exact Hp.
  - eexists _, _. split; [reflexivity|]. rewrite Hsr. exact Hp.
Qed.


(** [run_context] on a context whose first instruction to run is a call of
    an interpreted callee. *)
Lemma run_context_call_interpreted
    fuel (h : heap) c f below callee args nf :
  h !! c = Some f ->
  instructions f !! pointer f = Some (CALL_FUNCTION (length args)) ->
  stack f = below ++ callee :: args ->
  is_native callee = false ->
  new_context_for' (dispatch_target callee) = inr nf ->
  run_context' (S fuel) c h
  = Returned (Some (fresh (dom h)))
      (<[c := suspended_caller (with_pointer (S (pointer f)) f) below
                (fresh (dom h))]>
         (<[fresh (dom h) := pending_callee nf c args]> h)).
Proof.
  intros Hc Hins Hs Hnat Hnew.
  pose proof (fresh_ref_ne h c f Hc) as Hne.
  rewrite (run_context_unfold _ _ _ _ Hc).
  cbn [run_loop].
  erewrite dispatch_call_interpreted;
    [| solve_lookup | reflexivity | exact Hins | exact Hs
     | exact Hnat | exact Hnew].
  rewrite (dom_update _ _ _ _ Hc). f_equal.
  apply map_eq. intros i.
  destruct (decide (i = c)) as [->|Hic];
    [|destruct (decide (i = fresh (dom h))) as [->|Hin]];
    simplify_map_eq; reflexivity.
Qed.

(** A turn of the loop at a call of a native callee that raises: whatever
    the fault channel does with the fault, the engine sets the context
    RUNNING and pushes [None] on top of what the fault channel left. *)
Lemma dispatch_native_fault (h : heap) c f below callee args e :
  h !! c = Some f -> live (state f) ->
  instructions f !! pointer f = Some (CALL_FUNCTION (length args)) ->
  stack f = below ++ callee :: args ->
  is_native callee = true ->
  callable callee = true ->
  call_native callee args = NRaise e ->
  dispatch' c h
  = (set_state c RUNNING ;; push c VNone ;; ret Continue)
      (safe_raise c e
         (<[c := with_stack below
                   (with_state SUSPENDED (with_pointer (S (pointer f)) f))]> h)).
Proof.
  intros Hc Hlive Hins Hs Hnat Hcall Hraise.
  rewrite (dispatch_call_native _ _ _ _ _ _ Hc Hlive Hins Hs Hnat).
  unfold CALL_FUNCTION.
  erewrite bind_ok; cycle 1.
  { erewrite run_natively_ok; [| solve_lookup | exact Hs].
    cbn zeta. rewrite Hcall, Hraise. cbn [negb]. reflexivity. }
  rewrite insert_insert_eq. reflexivity.
Qed.

(** ** The engine against its specification *)

(** C4.  A CALL_FUNCTION with [length args] arguments whose callee is an
    interpreted callable pops the arguments and the callee from the
    caller's stack, creates exactly one new context, hands it the popped
    arguments in call order, links the two contexts both ways, leaves the
    new context PENDING and the caller SUSPENDED, and returns the new
    context from [run_context]. *)
Theorem interpreted_call_switches_context
    fuel (h : heap) c f below callee args nf :
  h !! c = Some f ->
  instructions f !! pointer f = Some (CALL_FUNCTION (length args)) ->
  stack f = below ++ callee :: args ->
  is_native callee = false ->
  new_context_for' (dispatch_target callee) = inr nf ->
  let new := fresh (dom h) in
  let h' := (<[c := suspended_caller (with_pointer (S (pointer f)) f) below new]>
               (<[new := pending_callee nf c args]> h)) in
  run_context' (S fuel) c h = Returned (Some new) h'
  /\ (live (state f) -> run_loop' (S fuel) c h = Returned (Some new) h')
  /\ (new ∉ dom h)
  /\ dom h' = {[new]} ∪ dom h
  /\ length (stack f) = length below + (length args + 1)
  /\ ctx_stack h' c = Some below
  /\ ctx_state h' c = Some SUSPENDED
  /\ ctx_links h' c = Some (prev_ctx f, Some new)
  /\ (prev_ctx <$> h' !! new) = Some (Some c)
  /\ (pending_args <$> h' !! new) = Some args
  /\ ctx_state h' new = Some PENDING.
Proof.
  intros Hc Hins Hs Hnat Hnew new h'. subst new h'.
  pose proof (fresh_ref_ne h c f Hc) as Hne.
  repeat split.
  - eapply run_context_call_interpreted; eauto.
  - intros Hlive. cbn [run_loop].
    erewrite dispatch_call_interpreted; eauto.
  - apply is_fresh.
  - rewrite dom_insert_lookup_L, dom_insert_L; [reflexivity|].
    rewrite lookup_insert_ne by congruence. eauto.
  - rewrite Hs, length_app. simpl. lia.
  - unfold ctx_stack. rewrite lookup_insert_eq. reflexivity.
  - unfold ctx_state. rewrite lookup_insert_eq. reflexivity.
  - unfold ctx_links. rewrite lookup_insert_eq. reflexivity.
  - rewrite lookup_insert_ne by congruence.
    rewrite lookup_insert_eq. reflexivity.
  - rewrite lookup_insert_ne by congruence.
    rewrite lookup_insert_eq. reflexivity.
  - unfold ctx_state. rewrite lookup_insert_ne by congruence.
    rewrite lookup_insert_eq. reflexivity.
Qed.


(** C2 (amended).  [run_context] first sets the context RUNNING, whatever
    state it was handed in, and then enters the loop.  Whenever the loop
    finds the context ERRORED at the top of a turn it returns [None]
    without fetching an instruction and without touching the context;
    whenever it finds it FINISHED it calls [finish] on it and returns
    [None], again without fetching an instruction. *)
Theorem terminal_state_stops_loop fuel (h : heap) c f :
  h !! c = Some f ->
  run_context' fuel c h = run_loop' fuel c (<[c := with_state RUNNING f]> h)
  /\ (state f = ERRORED -> run_loop' (S fuel) c h = Returned None h)
  /\ (state f = FINISHED ->
      run_loop' (S fuel) c h = Returned None (finish c h)).
Proof.
  intros Hc. split; [|split].
  - apply run_context_unfold, Hc.
  - intros Hst. cbn [run_loop]. unfold dispatch.
    rewrite (bind_ok _ _ _ _ _ (get_ctx_ok _ _ _ Hc)), Hst. reflexivity.
  - intros Hst. cbn [run_loop]. unfold dispatch.
    rewrite (bind_ok _ _ _ _ _ (get_ctx_ok _ _ _ Hc)), Hst. reflexivity.
Qed.

(** C5 (amended).  An instruction whose opcode is not CALL_FUNCTION and has
    no handler makes [run_context] fail with NotImplementedError carrying
    the opcode name, raised to the caller of [run_context]; nothing more is
    dispatched, and the context is left RUNNING with its pointer past the
    instruction. *)
Theorem unknown_opcode_raises fuel (h : heap) c f ins :
  h !! c = Some f ->
  instructions f !! pointer f = Some ins ->
  opname ins <> "CALL_FUNCTION" ->
  handlers (opname ins) = None ->
  run_context' (S fuel) c h
  = Raised (NotImplementedError (opname ins))
      (<[c := with_pointer (S (pointer f)) (with_state RUNNING f)]> h)
  /\ (live (state f) ->
      run_loop' (S fuel) c h
      = Raised (NotImplementedError (opname ins))
          (<[c := with_pointer (S (pointer f)) f]> h)).
Proof.
  intros Hc Hins Hop Hnone.
  apply String.eqb_neq in Hop.
  split.
  - rewrite (run_context_unfold _ _ _ _ Hc). cbn [run_loop].
    erewrite dispatch_fetch;
      [| solve_lookup | reflexivity | exact Hins].
    rewrite Hop, Hnone, insert_insert_eq. reflexivity.
  - intros Hlive. cbn [run_loop].
    rewrite (dispatch_fetch _ _ _ _ Hc Hlive Hins).
    rewrite Hop, Hnone. reflexivity.
Qed.


(** C7.  A CALL_FUNCTION whose callee is native leaves the caller and
    callee links of the context as they were and does not return to the
    driver: the turn ends with the context RUNNING and the loop goes on
    with the same context inside the same call of [run_context].  The
    fault channel is taken to leave the links of the context alone. *)
Theorem native_call_continues_in_place
    fuel (h : heap) c f below callee args :
  (forall e h0, ctx_links (safe_raise c e h0) c = ctx_links h0 c) ->
  h !! c = Some f -> live (state f) ->
  instructions f !! pointer f = Some (CALL_FUNCTION (length args)) ->
  stack f = below ++ callee :: args ->
  is_native callee = true ->
  exists h',
    dispatch' c h = Ok Continue h'
    /\ run_loop' (S fuel) c h = run_loop' fuel c h'
    /\ ctx_links h' c = ctx_links h c
    /\ ctx_state h' c = Some RUNNING
    /\ (forall v, callable callee = true ->
          call_native callee args = NReturn v ->
          h' = <[c := with_stack (below ++ [v])
                        (with_state RUNNING (with_pointer (S (pointer f)) f))]> h).
Proof.
  intros Hsr Hc Hlive Hins Hs Hnat.
  pose proof (dispatch_call_native _ _ _ _ _ _ Hc Hlive Hins Hs Hnat) as Hd.
  set (f2 := with_state SUSPENDED (with_pointer (S (pointer f)) f)) in *.
  assert (Hc2 : <[c := f2]> h !! c = Some f2) by apply lookup_insert_eq.
  assert (Hs2 : stack f2 = below ++ callee :: args) by exact Hs.
  destruct (run_natively_links _ _ _ "CALL_FUNCTION" _ _ _ Hsr Hc2 Hs2) as (v & h3 & Hrun & Hlinks).
  fold (CALL_FUNCTION (length args)) in Hrun.
  assert (Hl2 : ctx_links (<[c := f2]> h) c = ctx_links h c).
  { unfold ctx_links. rewrite lookup_insert_eq, Hc. reflexivity. }
  rewrite Hl2 in Hlinks.
  destruct (h3 !! c) as [f3|] eqn:Hc3;
    [| unfold ctx_links in Hlinks; rewrite Hc3, Hc in Hlinks; discriminate].
  rewrite (bind_ok _ _ _ _ _ Hrun) in Hd.
  rewrite (resume_after_bridge _ _ _ _ Hc3) in Hd.
  eexists. split; [exact Hd|]. split; [|split; [|split]].
  - cbn [run_loop]. rewrite Hd. reflexivity.
  - rewrite <- Hlinks. unfold ctx_links.
    rewrite lookup_insert_eq, Hc3. reflexivity.
  - unfold ctx_state. rewrite lookup_insert_eq. reflexivity.
  - intros w Hcall Hret.
    unfold CALL_FUNCTION in Hrun.
    rewrite (run_natively_ok _ _ _ _ _ _ _ Hc2 Hs2) in Hrun.
    cbn zeta in Hrun. rewrite Hcall, Hret in Hrun. cbn [negb] in Hrun.
    injection Hrun as <- <-.
    rewrite lookup_insert_eq in Hc3. injection Hc3 as <-.
    rewrite !insert_insert_eq. reflexivity.
Qed.

(** C8.  At a call that suspends the context, the fetch has already moved
    the pointer past the call instruction while the state was still what
    it was; the context is then set SUSPENDED with the pointer one past
    the call, so the next fetch on it yields the instruction that follows
    the call. *)
Theorem pointer_advances_before_suspension
    fuel (h : heap) c f below callee args nf :
  h !! c = Some f -> live (state f) ->
  instructions f !! pointer f = Some (CALL_FUNCTION (length args)) ->
  stack f = below ++ callee :: args ->
  is_native callee = false ->
  new_context_for' (dispatch_target callee) = inr nf ->
  let h1 := (<[c := with_pointer (S (pointer f)) f]> h) in
  next_instruction c h = Ok (CALL_FUNCTION (length args)) h1
  /\ dispatch' c h = call_function' c (CALL_FUNCTION (length args)) h1
  /\ ctx_state h1 c = Some (state f)
  /\ ctx_pointer h1 c = Some (S (pointer f))
  /\ exists new h',
       run_loop' (S fuel) c h = Returned (Some new) h'
       /\ ctx_state h' c = Some SUSPENDED
       /\ ctx_pointer h' c = Some (S (pointer f))
       /\ forall nxt, instructions f !! S (pointer f) = Some nxt ->
            exists h'', next_instruction c h' = Ok nxt h''.
Proof.
  intros Hc Hlive Hins Hs Hnat Hnew h1. subst h1.
  split; [apply next_instruction_ok; assumption|].
  split.
  { rewrite (dispatch_fetch _ _ _ _ Hc Hlive Hins).
    cbn [opname CALL_FUNCTION]. rewrite String.eqb_refl. reflexivity. }
  split; [unfold ctx_state; rewrite lookup_insert_eq; reflexivity|].
  split; [unfold ctx_pointer; rewrite lookup_insert_eq; reflexivity|].
  eexists _, _. split.
  { cbn [run_loop].
    erewrite dispatch_call_interpreted; eauto. }
  split; [unfold ctx_state; rewrite lookup_insert_eq; reflexivity|].
  split; [unfold ctx_pointer; rewrite lookup_insert_eq; reflexivity|].
  intros nxt Hnxt. eexists.
  apply next_instruction_ok; [apply lookup_insert_eq | exact Hnxt].
Qed.


(** C9.  When the callee found on the stack is a class, the engine puts its
    [__new__] in its place before it asks whether the callee is native:
    the call goes through the bridge exactly when [__new__] is a builtin or
    marked native, and otherwise the new context is built from [__new__],
    as for a call of that function. *)
Theorem class_callee_dispatches_on_new
    fuel (h : heap) c f below name new args :
  h !! c = Some f -> live (state f) ->
  instructions f !! pointer f = Some (CALL_FUNCTION (length args)) ->
  stack f = below ++ VType name new :: args ->
  let h2 := (<[c := with_state SUSPENDED (with_pointer (S (pointer f)) f)]> h) in
  (isbuiltin new || has_native_invoke new = true ->
     dispatch' c h
     = (result <- run_natively' c (CALL_FUNCTION (length args)) ;;
        set_state c RUNNING ;;
        push c result ;;
        ret Continue) h2)
  /\ (isbuiltin new || has_native_invoke new = false ->
      forall nf, new_context_for' new = inr nf ->
        run_loop' (S fuel) c h
        = Returned (Some (fresh (dom h)))
            (<[c := suspended_caller (with_pointer (S (pointer f)) f) below
                      (fresh (dom h))]>
               (<[fresh (dom h) := pending_callee nf c args]> h)))
  /\ (isbuiltin new || has_native_invoke new = false ->
      forall e, new_context_for' new = inl e ->
        run_loop' (S fuel) c h = Raised e h2).
Proof.
  intros Hc Hlive Hins Hs h2. subst h2.
  split; [|split].
  - intros Hnat. eapply dispatch_call_native; eauto.
  - intros Hnat nf Hnew. cbn [run_loop].
    erewrite dispatch_call_interpreted; eauto.
  - intros Hnat e Hnew. cbn [run_loop].
    rewrite (dispatch_fetch _ _ _ _ Hc Hlive Hins).
    cbn [opname CALL_FUNCTION]. rewrite String.eqb_refl. unfold CALL_FUNCTION.
    erewrite call_function_constructor_raises;
      [| solve_lookup | exact Hs | exact Hnat | exact Hnew].
    rewrite insert_insert_eq. reflexivity.
Qed.

(** C10.  At every CALL_FUNCTION the engine sets the context SUSPENDED
    before it looks at the callee: a stack too short to hold the callee
    makes the lookup raise with the context already SUSPENDED, and a native
    callee is handed to the bridge in a store where the context is
    SUSPENDED; once the bridge returns, the same turn sets the context back
    to RUNNING, pushes the result and goes round the loop, with no context
    switch. *)
Theorem call_suspends_before_examining_callee (h : heap) c f n :
  h !! c = Some f -> live (state f) ->
  instructions f !! pointer f = Some (CALL_FUNCTION n) ->
  let h2 := (<[c := with_state SUSPENDED (with_pointer (S (pointer f)) f)]> h) in
  ctx_state h2 c = Some SUSPENDED
  /\ (length (stack f) <= n ->
      dispatch' c h = Raise (IndexError "deque index out of range") h2)
  /\ (forall below callee args,
        stack f = below ++ callee :: args -> length args = n ->
        is_native callee = true ->
        dispatch' c h
        = (result <- run_natively' c (CALL_FUNCTION n) ;;
           set_state c RUNNING ;;
           push c result ;;
           ret Continue) h2
        /\ forall v h3 f3,
             run_natively' c (CALL_FUNCTION n) h2 = Ok v h3 ->
             h3 !! c = Some f3 ->
             let h4 := (<[c := with_stack (stack f3 ++ [v])
                                 (with_state RUNNING f3)]> h3) in
             dispatch' c h = Ok Continue h4
             /\ ctx_state h4 c = Some RUNNING).
Proof.
  intros Hc Hlive Hins h2. subst h2.
  split; [unfold ctx_state; rewrite lookup_insert_eq; reflexivity|].
  split.
  - intros Hlen.
    rewrite (dispatch_fetch _ _ _ _ Hc Hlive Hins).
    cbn [opname CALL_FUNCTION]. rewrite String.eqb_refl. unfold CALL_FUNCTION.
    erewrite call_function_short_stack; [| solve_lookup | exact Hlen].
    rewrite insert_insert_eq. reflexivity.
  - intros below callee args Hs Hn Hnat. subst n.
    pose proof (dispatch_call_native _ _ _ _ _ _ Hc Hlive Hins Hs Hnat) as Hd.
    split; [exact Hd|].
    intros v h3 f3 Hrun Hc3 h4. subst h4.
    rewrite (bind_ok _ _ _ _ _ Hrun) in Hd.
    rewrite (resume_after_bridge _ _ _ _ Hc3) in Hd.
    split; [exact Hd|].
    unfold ctx_state. rewrite lookup_insert_eq. reflexivity.
Qed.

(** C1.  The engine does not deliver NotCallable here.  On the stack [[5]] with the
    instruction CALL_FUNCTION 0, the callee is the integer 5: not a
    builtin, not marked native, not a wrapped function, not callable.
    Whatever the collaborators are, the engine hands it to the constructor
    of [_VSContext]: if the constructor accepts it, a new context is
    returned and the caller is SUSPENDED with no fault recorded; if the
    constructor raises, that exception leaves [run_context] with the caller
    SUSPENDED.  The fault channel is not used on either path. *)
Theorem uncallable_callee_reaches_constructor fuel :
  let f := root_context
             [CALL_FUNCTION 0; RETURN_VALUE]
             [VInt 5] PENDING in
  let h := call_site (VInt 5) [] in
  callable (VInt 5) = false
  /\ is_native (VInt 5) = false
  /\ is_wrapped_function (VInt 5) = false
  /\ match VSContext_init (VInt 5) with
     | inr nf =>
         run_context' (S fuel) 0 h
         = Returned (Some 1)
             (<[0 := suspended_caller (with_pointer 1 f) [] 1]>
                (<[1 := pending_callee nf 0 []]> h))
     | inl e =>
         run_context' (S fuel) 0 h
         = Raised e (<[0 := with_state SUSPENDED (with_pointer 1 f)]> h)
     end.
Proof.
  intros f h. repeat split.
  assert (Hc : h !! 0 = Some f) by reflexivity.
  destruct (VSContext_init (VInt 5)) as [e|nf] eqn:Hinit.
  - rewrite (run_context_unfold _ _ _ _ Hc). cbn [run_loop].
    erewrite dispatch_fetch;
      [| solve_lookup | reflexivity | reflexivity].
    cbn [opname CALL_FUNCTION]. rewrite String.eqb_refl. unfold CALL_FUNCTION.
    erewrite (call_function_constructor_raises _ _ _ _ [] (VInt 5) []);
      [| solve_lookup | reflexivity | reflexivity | exact Hinit].
    rewrite !insert_insert_eq. reflexivity.
  - exact (run_context_call_interpreted
             fuel h 0 f [] (VInt 5) [] nf Hc eq_refl eq_refl eq_refl Hinit).
Qed.

End EngineFacts.


(** *** The fault channel of the specification *)

Lemma mark_errored_links (h : heap) c f e x :
  h !! c = Some f ->
  ctx_links (<[c := with_fault (Some e) (with_state ERRORED f)]> h) x
  = ctx_links h x.
Proof.
  intros Hc. unfold ctx_links.
  destruct (decide (x = c)) as [->|Hne].
  - rewrite lookup_insert_eq, Hc. reflexivity.
  - rewrite lookup_insert_ne by congruence. reflexivity.
Qed.

(** Raising into a context changes states and faults along the caller
    chain, never a link. *)
Lemma raise_into_links fuel : forall c e (h : heap) x,
  ctx_links (raise_into fuel c e h) x = ctx_links h x.
Proof.
  induction fuel as [|fuel IH]; intros c e h x; cbn [raise_into];
    destruct (h !! c) as [f|] eqn:Hc; try reflexivity.
  - apply mark_errored_links, Hc.
  - rewrite <- (mark_errored_links h c f e x Hc).
    generalize (<[c := with_fault (Some e) (with_state ERRORED f)]> h).
    induction (on_exception_callbacks f) as [|cb cbs IHcbs]; intros h1.
    + reflexivity.
    + cbn [foldl]. rewrite IHcbs. destruct cb; [reflexivity | apply IH].
Qed.

Lemma safe_raise_spec_links c e (h : heap) :
  ctx_links (safe_raise_spec c e h) c = ctx_links h c.
Proof. apply raise_into_links. Qed.

(** ** The sample world: instances of the statements above *)

(** C4 at a call of the wrapped function [f] on 2 and 3. *)
Lemma interpreted_call_switches_context_witness :
  exists h',
    sample_run_context 1 0 (call_site (VWrapped "f") [VInt 2; VInt 3])
    = Returned (Some 1) h'
    /\ ctx_stack h' 0 = Some []
    /\ ctx_state h' 0 = Some SUSPENDED
    /\ ctx_links h' 0 = Some (None, Some 1)
    /\ ctx_links h' 1 = Some (Some 0, None)
    /\ (pending_args <$> h' !! 1) = Some [VInt 2; VInt 3]
    /\ ctx_state h' 1 = Some PENDING.
Proof.
  pose proof (interpreted_call_switches_context
                sample_handlers sample_call_native safe_raise_spec finish_spec
                sample_VSContext_init sample_wrapped_call
                0 (call_site (VWrapped "f") [VInt 2; VInt 3]) 0
                (root_context [CALL_FUNCTION 2; RETURN_VALUE]
                   [VWrapped "f"; VInt 2; VInt 3] PENDING)
                [] (VWrapped "f") [VInt 2; VInt 3] (blank_context sample_code)
                eq_refl eq_refl eq_refl eq_refl eq_refl) as H.
  cbv zeta in H.
  destruct H as (Hrun & _ & _ & _ & _ & Hstk & Hst & Hlinks & Hprev & Hargs & Hpend).
  eexists. split; [exact Hrun|].
  repeat split; assumption.
Defined.

(** C2, as the specification states it, fails on this input.  A context
    handed to the engine in state ERRORED with a call still to
    run: the engine sets it RUNNING, carries out the call and the return, and
    leaves it FINISHED with the pointer at the end and the sum on the
    stack. *)
Lemma run_on_errored_context_dispatches :
  let f := root_context [CALL_FUNCTION 2; RETURN_VALUE]
             [VBuiltin "add"; VInt 2; VInt 3] ERRORED in
  let h := one_context f in
  state f = ERRORED
  /\ ~ is_noop (sample_run_context 3 0 h) h
  /\ exists h',
       sample_run_context 3 0 h = Returned None h'
       /\ ctx_state h' 0 = Some FINISHED
       /\ ctx_pointer h' 0 = Some 2
       /\ ctx_stack h' 0 = Some [VInt 5].
Proof.
  cbv zeta. split; [reflexivity|]. split.
  - unfold is_noop. intros H.
    apply (f_equal (fun r => match r with
                             | Returned _ h' => ctx_pointer h' 0
                             | _ => None
                             end)) in H.
    vm_compute in H. discriminate H.
  - eexists. split; [vm_compute; reflexivity|].
    repeat split.
Qed.

(** C2 (amended) at a context the loop finds ERRORED. *)
Lemma terminal_state_stops_loop_witness :
  let h := one_context (root_context [CALL_FUNCTION 2; RETURN_VALUE]
                          [VBuiltin "add"; VInt 2; VInt 3] ERRORED) in
  sample_run_loop 1 0 h = Returned None h.
Proof.
  cbv zeta.
  destruct (terminal_state_stops_loop
              sample_handlers sample_call_native safe_raise_spec finish_spec
              sample_VSContext_init sample_wrapped_call 0
              (one_context (root_context [CALL_FUNCTION 2; RETURN_VALUE]
                              [VBuiltin "add"; VInt 2; VInt 3] ERRORED))
              0 _ eq_refl) as (_ & Herr & _).
  exact (Herr eq_refl).
Defined.

(** C5, as the specification states it, fails on this input.  The opcode
    FOO_BAR has no handler: NotImplementedError leaves
    [run_context] and the context is RUNNING. *)
Lemma unknown_opcode_leaves_context_running :
  let h := one_context (root_context [mkInstruction "FOO_BAR" None] [] PENDING) in
  sample_handlers "FOO_BAR" = None
  /\ ~ not_left_running (sample_run_context 1 0 h) 0
  /\ exists h',
       sample_run_context 1 0 h = Raised (NotImplementedError "FOO_BAR") h'
       /\ ctx_state h' 0 = Some RUNNING.
Proof.
  cbv zeta. split; [reflexivity|]. split.
  - intros H. vm_compute in H. apply H. reflexivity.
  - eexists. split; [vm_compute; reflexivity|]. reflexivity.
Qed.

(** C5 (amended) at the opcode FOO_BAR. *)
Lemma unknown_opcode_raises_witness :
  let f := root_context [mkInstruction "FOO_BAR" None] [] PENDING in
  sample_run_context 1 0 (one_context f)
  = Raised (NotImplementedError "FOO_BAR")
      (<[0 := with_pointer 1 (with_state RUNNING f)]> (one_context f)).
Proof.
  cbv zeta.
  refine (proj1 (unknown_opcode_raises
              sample_handlers sample_call_native safe_raise_spec finish_spec
              sample_VSContext_init sample_wrapped_call 0
              (one_context (root_context [mkInstruction "FOO_BAR" None] [] PENDING))
              0 _ (mkInstruction "FOO_BAR" None) eq_refl eq_refl _ eq_refl)).
  cbn. discriminate.
Defined.

(** C7 at a call of the host function [add] on 2 and 3. *)
Lemma native_call_continues_in_place_witness :
  exists h',
    sample_dispatch 0 (call_site (VBuiltin "add") [VInt 2; VInt 3])
    = Ok Continue h'
    /\ sample_run_loop 3 0 (call_site (VBuiltin "add") [VInt 2; VInt 3])
       = sample_run_loop 2 0 h'
    /\ ctx_links h' 0 = Some (None, None)
    /\ ctx_state h' 0 = Some RUNNING
    /\ ctx_stack h' 0 = Some [VInt 5].
Proof.
  destruct (native_call_continues_in_place
              sample_handlers sample_call_native safe_raise_spec finish_spec
              sample_VSContext_init sample_wrapped_call 2
              (call_site (VBuiltin "add") [VInt 2; VInt 3]) 0
              (root_context [CALL_FUNCTION 2; RETURN_VALUE]
                 [VBuiltin "add"; VInt 2; VInt 3] PENDING)
              [] (VBuiltin "add") [VInt 2; VInt 3]
              (fun e h0 => safe_raise_spec_links 0 e h0)
              eq_refl eq_refl eq_refl eq_refl eq_refl)
    as (h' & Hd & Hloop & Hlinks & Hst & Hok).
  exists h'. repeat split; try assumption.
  rewrite (Hok (VInt 5) eq_refl eq_refl). reflexivity.
Defined.

(** C8 at a call of the wrapped function [f]. *)
Lemma pointer_advances_before_suspension_witness :
  exists new h',
    sample_run_loop 1 0 (call_site (VWrapped "f") [VInt 2])
    = Returned (Some new) h'
    /\ ctx_state h' 0 = Some SUSPENDED
    /\ ctx_pointer h' 0 = Some 1
    /\ exists h'', next_instruction 0 h' = Ok RETURN_VALUE h''.
Proof.
  destruct (pointer_advances_before_suspension
              sample_handlers sample_call_native safe_raise_spec finish_spec
              sample_VSContext_init sample_wrapped_call 0
              (call_site (VWrapped "f") [VInt 2]) 0
              (root_context [CALL_FUNCTION 1; RETURN_VALUE]
                 [VWrapped "f"; VInt 2] PENDING)
              [] (VWrapped "f") [VInt 2] (blank_context sample_code)
              eq_refl eq_refl eq_refl eq_refl eq_refl eq_refl)
    as (_ & _ & _ & _ & new & h' & Hrun & Hst & Hp & Hnext).
  exists new, h'. repeat split; try assumption.
  exact (Hnext RETURN_VALUE eq_refl).
Defined.

(** C9 at the class [int], whose [__new__] is a builtin, and at a class
    [Point] whose [__new__] is a plain function. *)
Lemma class_callee_dispatches_on_new_witness :
  (exists h',
     sample_dispatch 0 (call_site (VType "int" (VBuiltin "int.__new__")) [])
     = Ok Continue h'
     /\ ctx_stack h' 0 = Some [VInt 0]
     /\ ctx_state h' 0 = Some RUNNING)
  /\ (exists h',
        sample_run_loop 1 0
          (call_site (VType "Point" (VFunction "Point.__new__" false)) [VInt 1])
        = Returned (Some 1) h'
        /\ h' !! 1 = Some (pending_callee (blank_context sample_code) 0 [VInt 1])).
Proof.
  split.
  - destruct (class_callee_dispatches_on_new
                sample_handlers sample_call_native safe_raise_spec finish_spec
                sample_VSContext_init sample_wrapped_call 0
                (call_site (VType "int" (VBuiltin "int.__new__")) []) 0
                (root_context [CALL_FUNCTION 0; RETURN_VALUE]
                   [VType "int" (VBuiltin "int.__new__")] PENDING)
                [] "int" (VBuiltin "int.__new__") []
                eq_refl eq_refl eq_refl eq_refl) as (Hnative & _ & _).
    unfold sample_dispatch. rewrite (Hnative eq_refl).
    eexists. split; [vm_compute; reflexivity|]. split; reflexivity.
  - destruct (class_callee_dispatches_on_new
                sample_handlers sample_call_native safe_raise_spec finish_spec
                sample_VSContext_init sample_wrapped_call 0
                (call_site (VType "Point" (VFunction "Point.__new__" false)) [VInt 1]) 0
                (root_context [CALL_FUNCTION 1; RETURN_VALUE]
                   [VType "Point" (VFunction "Point.__new__" false); VInt 1] PENDING)
                [] "Point" (VFunction "Point.__new__" false) [VInt 1]
                eq_refl eq_refl eq_refl eq_refl) as (_ & Hinterp & _).
    unfold sample_run_loop.
    rewrite (Hinterp eq_refl (blank_context sample_code) eq_refl).
    eexists. split; [reflexivity|]. reflexivity.
Defined.

(** C10 at a stack too short for the call, and at a call of [add]. *)
Lemma call_suspends_before_examining_callee_witness :
  (exists h2,
     sample_dispatch 0 (one_context (root_context [CALL_FUNCTION 2] [VInt 1] PENDING))
     = Raise (IndexError "deque index out of range") h2
     /\ ctx_state h2 0 = Some SUSPENDED)
  /\ (exists h2 h4,
        ctx_state h2 0 = Some SUSPENDED
        /\ sample_dispatch 0 (call_site (VBuiltin "add") [VInt 2; VInt 3])
           = (result <- run_natively sample_call_native safe_raise_spec 0
                          (CALL_FUNCTION 2) ;;
              set_state 0 RUNNING ;;
              push 0 result ;;
              ret Continue) h2
        /\ sample_dispatch 0 (call_site (VBuiltin "add") [VInt 2; VInt 3])
           = Ok Continue h4
        /\ ctx_state h4 0 = Some RUNNING).
Proof.
  split.
  - destruct (call_suspends_before_examining_callee
                sample_handlers sample_call_native safe_raise_spec finish_spec
                sample_VSContext_init sample_wrapped_call
                (one_context (root_context [CALL_FUNCTION 2] [VInt 1] PENDING)) 0
                (root_context [CALL_FUNCTION 2] [VInt 1] PENDING) 2
                eq_refl eq_refl eq_refl) as (Hst & Hshort & _).
    eexists. split; [apply Hshort; cbn; lia | exact Hst].
  - destruct (call_suspends_before_examining_callee
                sample_handlers sample_call_native safe_raise_spec finish_spec
                sample_VSContext_init sample_wrapped_call
                (call_site (VBuiltin "add") [VInt 2; VInt 3]) 0
                (root_context [CALL_FUNCTION 2; RETURN_VALUE]
                   [VBuiltin "add"; VInt 2; VInt 3] PENDING) 2
                eq_refl eq_refl eq_refl) as (Hst & _ & Hnative).
    destruct (Hnative [] (VBuiltin "add") [VInt 2; VInt 3] eq_refl eq_refl eq_refl)
      as (Hd & Hafter).
    destruct (Hafter (VInt 5) _ _ eq_refl eq_refl) as (Hd4 & Hst4).
    eexists _, _. split; [exact Hst|]. split; [exact Hd|].
    split; [exact Hd4 | exact Hst4].
Defined.

(** ** Where the engine departs from the specification *)

(** C3.  The host function [fail] raises when it is called on 2 and 3.  The
    bridge passes the fault to the fault channel and returns [None]; the
    engine then sets the context RUNNING and pushes that [None], whatever
    the fault channel and the other collaborators are.  In the sample world
    the turn ends with [[None]] on the stack, and the run goes on to the
    return instruction and finishes the context. *)
Theorem native_fault_pushes_none
    (handlers : string -> option (ref -> Instruction -> M unit))
    (safe_raise : ref -> pyexc -> heap -> heap)
    (finish : ref -> heap -> heap)
    (VSContext_init VSWrappedFunction_call : pyval -> pyexc + VSContext) :
  let f := root_context [CALL_FUNCTION 2; RETURN_VALUE]
             [VBuiltin "fail"; VInt 2; VInt 3] PENDING in
  let h := call_site (VBuiltin "fail") [VInt 2; VInt 3] in
  sample_call_native (VBuiltin "fail") [VInt 2; VInt 3]
  = NRaise (NativeException "ValueError")
  /\ dispatch handlers sample_call_native safe_raise finish
       VSContext_init VSWrappedFunction_call 0 h
     = (set_state 0 RUNNING ;; push 0 VNone ;; ret Continue)
         (safe_raise 0 (NativeException "ValueError")
            (<[0 := with_stack []
                      (with_state SUSPENDED (with_pointer 1 f))]> h))
  /\ (exists h1,
        sample_dispatch 0 h = Ok Continue h1
        /\ ctx_stack h1 0 = Some [VNone]
        /\ ctx_state h1 0 = Some RUNNING
        /\ ctx_fault h1 0 = Some (Some (NativeException "ValueError")))
  /\ (exists h',
        sample_run_context 3 0 h = Returned None h'
        /\ ctx_stack h' 0 = Some [VNone]
        /\ ctx_state h' 0 = Some FINISHED).
Proof.
  cbv zeta. split; [reflexivity|]. split; [|split].
  - exact (dispatch_native_fault handlers sample_call_native safe_raise finish
             VSContext_init VSWrappedFunction_call
             (call_site (VBuiltin "fail") [VInt 2; VInt 3]) 0 _
             [] (VBuiltin "fail") [VInt 2; VInt 3] _
             eq_refl eq_refl eq_refl eq_refl eq_refl eq_refl eq_refl).
  - eexists. split; [vm_compute; reflexivity|]. repeat split.
  - eexists. split; [vm_compute; reflexivity|]. repeat split.
Qed.

(** C6.  The same call, seen from the fault: in the store the fault channel
    leaves behind, the context is ERRORED with the fault attached, an empty
    stack and the pointer at 1.  The engine carries on from that store: it
    sets the context RUNNING and pushes [None], and the run ends with the
    context FINISHED, [[None]] on the stack and the pointer at 2. *)
Theorem errored_context_keeps_running :
  let f := root_context [CALL_FUNCTION 2; RETURN_VALUE]
             [VBuiltin "fail"; VInt 2; VInt 3] PENDING in
  let h := call_site (VBuiltin "fail") [VInt 2; VInt 3] in
  let failed :=
    safe_raise_spec 0 (NativeException "ValueError")
      (<[0 := with_stack [] (with_state SUSPENDED (with_pointer 1 f))]> h) in
  ctx_state failed 0 = Some ERRORED
  /\ ctx_fault failed 0 = Some (Some (NativeException "ValueError"))
  /\ ctx_stack failed 0 = Some []
  /\ ctx_pointer failed 0 = Some 1
  /\ sample_dispatch 0 h
     = (set_state 0 RUNNING ;; push 0 VNone ;; ret Continue) failed
  /\ exists h',
       sample_run_context 3 0 h = Returned None h'
       /\ ctx_state h' 0 = Some FINISHED
       /\ ctx_stack h' 0 = Some [VNone]
       /\ ctx_pointer h' 0 = Some 2
       /\ ctx_fault h' 0 = Some (Some (NativeException "ValueError")).
Proof.
  cbv zeta.
  split; [reflexivity|]. split; [reflexivity|].
  split; [reflexivity|]. split; [reflexivity|].
  split; [vm_compute; reflexivity|].
  eexists. split; [vm_compute; reflexivity|]. repeat split.
Qed.

(** ** More about the bridge and the loop *)

Lemma pop_n_short c : forall l n (h : heap) f,
  h !! c = Some f -> stack f = l -> length l < n ->
  pop_n (stack_pop c) n h
  = Raise (IndexError "pop from an empty deque") (<[c := with_stack [] f]> h).
Proof.
  induction l as [|v l IH] using rev_ind; intros n h f Hc Hs Hlen.
  - destruct n as [|n]; [simpl in Hlen; lia|]. cbn [pop_n].
    rewrite (bind_raise _ _ _ _ _ (stack_pop_empty _ _ _ Hc Hs)).
    rewrite <- Hs, with_stack_same, insert_id by assumption. reflexivity.
  - rewrite length_app in Hlen. simpl in Hlen.
    destruct n as [|n]; [lia|]. cbn [pop_n].
    rewrite (bind_ok _ _ _ _ _ (stack_pop_ok _ _ _ _ _ Hc Hs)).
    erewrite bind_raise; cycle 1.
    { apply (IH n _ (with_stack l f)); [apply lookup_insert_eq | reflexivity | lia]. }
    rewrite insert_insert_eq. reflexivity.
Qed.

(** *** Links *)

Lemma ctx_links_Some (h : heap) x p n :
  ctx_links h x = Some (p, n)
  <-> exists f, h !! x = Some f /\ prev_ctx f = p /\ next_ctx f = n.
Proof.
  unfold ctx_links. split.
  - destruct (h !! x) as [f|]; [|discriminate].
    cbn. intros [= <- <-]. eauto.
  - intros (f & -> & <- & <-). reflexivity.
Qed.

Lemma same_links_refl (h : heap) : same_links h h.
Proof. intros x. reflexivity. Qed.

Lemma same_links_trans (h1 h2 h3 : heap) :
  same_links h1 h2 -> same_links h2 h3 -> same_links h1 h3.
Proof. intros H12 H23 x. rewrite H23. apply H12. Qed.

Lemma same_links_insert (h : heap) c f g :
  h !! c = Some f ->
  prev_ctx g = prev_ctx f -> next_ctx g = next_ctx f ->
  same_links h (<[c := g]> h).
Proof.
  intros Hc Hp Hn x. unfold ctx_links.
  destruct (decide (x = c)) as [->|Hne].
  - rewrite lookup_insert_eq, Hc. cbn. rewrite Hp, Hn. reflexivity.
  - rewrite lookup_insert_ne by congruence. reflexivity.
Qed.

(** A store with the same links is as well linked. *)
Lemma same_links_well_linked (h h' : heap) :
  same_links h h' -> well_linked h -> well_linked h'.
Proof.
  intros Hsame Hw x f' Hx.
  assert (Hl : ctx_links h x = Some (prev_ctx f', next_ctx f')).
  { rewrite <- Hsame. apply ctx_links_Some. eauto. }
  apply ctx_links_Some in Hl as (f & Hf & Hp & Hn).
  destruct (Hw x f Hf) as [Hprev Hnext]. split.
  - intros p Hpp. destruct (Hprev p) as [g Hg]; [congruence|].
    assert (Hlp : ctx_links h' p = Some (prev_ctx g, next_ctx g)).
    { rewrite Hsame. apply ctx_links_Some. eauto. }
    apply ctx_links_Some in Hlp as (g' & Hg' & _). eauto.
  - intros n Hnn. destruct (Hnext n) as (g & Hg & Hback); [congruence|].
    assert (Hln : ctx_links h' n = Some (prev_ctx g, next_ctx g)).
    { rewrite Hsame. apply ctx_links_Some. eauto. }
    apply ctx_links_Some in Hln as (g' & Hg' & Hp' & _).
    exists g'. split; [exact Hg' | congruence].
Qed.

Lemma bind_same_links {A B} (m : M A) (k : A -> M B) (h : heap) :
  same_links h (store (m h)) ->
  (forall a h', same_links h' (store (k a h'))) ->
  same_links h (store (bind m k h)).
Proof.
  intros Hm Hk. unfold bind. destruct (m h) as [a h'|e h']; cbn in *.
  - eapply same_links_trans; [exact Hm | apply Hk].
  - exact Hm.
Qed.

Lemma update_ctx_same_links c t (h : heap) :
  (forall f, prev_ctx (t f) = prev_ctx f /\ next_ctx (t f) = next_ctx f) ->
  same_links h (store (update_ctx c t h)).
Proof.
  intros Ht. unfold update_ctx, bind, get_ctx, lift.
  destruct (h !! c) as [f|] eqn:Hc; cbn.
  - destruct (Ht f). eapply same_links_insert; eauto.
  - apply same_links_refl.
Qed.

Lemma set_state_same_links c s (h : heap) :
  same_links h (store (set_state c s h)).
Proof. apply update_ctx_same_links. intros f. split; reflexivity. Qed.

Lemma push_same_links c v (h : heap) :
  same_links h (store (push c v h)).
Proof. apply update_ctx_same_links. intros f. split; reflexivity. Qed.

Lemma stack_pop_same_links c (h : heap) :
  same_links h (store (stack_pop c h)).
Proof.
  unfold stack_pop, bind, get_ctx, lift, throw, ret.
  destruct (h !! c) as [f|] eqn:Hc; cbn; [|apply same_links_refl].
  destruct (split_last (stack f)) as [[rest v]|]; cbn.
  - eapply same_links_insert; eauto.
  - apply same_links_refl.
Qed.

Lemma resume_same_links c v (h : heap) :
  same_links h
    (store ((set_state c RUNNING ;; push c v ;; ret Continue) h)).
Proof.
  apply bind_same_links; [apply set_state_same_links|]. intros _ h1.
  apply bind_same_links; [apply push_same_links|]. intros _ h2.
  apply same_links_refl.
Qed.

(** The callee found by the engine splits the stack into what is below it
    and the arguments above it. *)
Lemma neg_index_Some l n callee :
  neg_index l (n + 1) = Some callee ->
  exists below args, l = below ++ callee :: args /\ length args = n.
Proof.
  unfold neg_index. rewrite Nat.add_1_r.
  destruct (decide (S n <= length l)) as [Hle|]; [|discriminate].
  intros Hl.
  exists (take (length l - S n) l), (drop (S (length l - S n)) l). split.
  - symmetry. apply take_drop_middle, Hl.
  - rewrite length_drop. lia.
Qed.

(** The store after a context switch is well linked when the store before
    it was and the new context came without a callee link. *)
Lemma switch_well_linked (h : heap) c f below args nf :
  well_linked h ->
  h !! c = Some f ->
  next_ctx nf = None ->
  well_linked (<[c := suspended_caller f below (fresh (dom h))]>
                 (<[fresh (dom h) := pending_callee nf c args]> h)).
Proof.
  intros Hw Hc Hnf.
  pose proof (fresh_ref_ne h c f Hc) as Hne.
  assert (Hfresh : h !! fresh (dom h) = None)
    by apply not_elem_of_dom, is_fresh.
  set (new := fresh (dom h)) in *.
  assert (Hkeep : forall p, is_Some (h !! p) ->
            is_Some ((<[c := suspended_caller f below new]>
                        (<[new := pending_callee nf c args]> h)) !! p)).
  { intros p Hp. rewrite !lookup_insert_is_Some. 
    destruct (decide (c = p)); [left; done|].
    right. split; [done|].
    destruct (decide (new = p)); [left; done|]. right. done. }
  intros x g Hx.
  destruct (decide (x = c)) as [->|Hxc].
  - rewrite lookup_insert_eq in Hx. injection Hx as <-.
    destruct (Hw c f Hc) as [Hprev _]. split.
    + intros p Hp. apply Hkeep, Hprev, Hp.
    + intros n Hn. cbn in Hn. injection Hn as <-.
      exists (pending_callee nf c args). split; [|reflexivity].
      rewrite lookup_insert_ne by congruence. apply lookup_insert_eq.
  - rewrite lookup_insert_ne in Hx by congruence.
    destruct (decide (x = new)) as [->|Hxn].
    + rewrite lookup_insert_eq in Hx. injection Hx as <-. split.
      * intros p Hp. cbn in Hp. injection Hp as <-.
        rewrite lookup_insert_eq. eauto.
      * intros n Hn. cbn in Hn. congruence.
    + rewrite lookup_insert_ne in Hx by congruence.
      destruct (Hw x g Hx) as [Hprev Hnext]. split.
      * intros p Hp. apply Hkeep, Hprev, Hp.
      * intros n Hn. destruct (Hnext n Hn) as (g0 & Hg0 & Hback).
        destruct (decide (n = c)) as [->|Hnc].
        -- exists (suspended_caller f below new). split.
           ++ apply lookup_insert_eq.
           ++ cbn. congruence.
        -- exists g0. split; [|exact Hback].
           rewrite lookup_insert_ne by congruence.
           rewrite lookup_insert_ne by congruence. exact Hg0.
Qed.


(** *** Contexts and their code *)

Lemma keeps_code_refl (h : heap) : keeps_code h h.
Proof. intros x f Hx. eauto. Qed.

Lemma keeps_code_trans (h1 h2 h3 : heap) :
  keeps_code h1 h2 -> keeps_code h2 h3 -> keeps_code h1 h3.
Proof.
  intros H12 H23 x f Hx.
  destruct (H12 x f Hx) as (f2 & Hx2 & Hi2).
  destruct (H23 x f2 Hx2) as (f3 & Hx3 & Hi3).
  exists f3. split; [exact Hx3 | congruence].
Qed.

Lemma keeps_code_insert (h : heap) c f g :
  h !! c = Some f -> instructions g = instructions f ->
  keeps_code h (<[c := g]> h).
Proof.
  intros Hc Hi x fx Hx. destruct (decide (x = c)) as [->|Hne].
  - rewrite lookup_insert_eq. exists g. split; [reflexivity | congruence].
  - rewrite lookup_insert_ne by congruence. eauto.
Qed.

Lemma keeps_code_alloc (h : heap) nf :
  keeps_code h (<[fresh (dom h) := nf]> h).
Proof.
  intros x f Hx. exists f. split; [|reflexivity].
  rewrite lookup_insert_ne; [exact Hx|].
  exact (fresh_ref_ne _ _ _ Hx).
Qed.

Lemma steady_ret {A} (a : A) : steady (ret a).
Proof. intros h. apply keeps_code_refl. Qed.

Lemma steady_throw {A} e : steady (@throw A e).
Proof. intros h. apply keeps_code_refl. Qed.

Lemma steady_bind {A B} (m : M A) (k : A -> M B) :
  steady m -> (forall a, steady (k a)) -> steady (bind m k).
Proof.
  intros Hm Hk h. unfold bind. specialize (Hm h).
  destruct (m h) as [a h1|e h1]; cbn in *.
  - eapply keeps_code_trans; [exact Hm | apply Hk].
  - exact Hm.
Qed.

Lemma steady_lift t :
  (forall h, keeps_code h (t h)) -> steady (lift t).
Proof. intros Ht h. apply Ht. Qed.

Lemma steady_get_ctx c : steady (get_ctx c).
Proof.
  intros h. unfold get_ctx. destruct (h !! c); apply keeps_code_refl.
Qed.

Lemma steady_update_ctx c t :
  (forall f, instructions (t f) = instructions f) -> steady (update_ctx c t).
Proof.
  intros Ht h. unfold update_ctx, bind, get_ctx, lift.
  destruct (h !! c) as [f|] eqn:Hc; cbn.
  - eapply keeps_code_insert; eauto.
  - apply keeps_code_refl.
Qed.

Lemma steady_stack_pop c : steady (stack_pop c).
Proof.
  intros h. unfold stack_pop, bind, get_ctx, lift, throw, ret.
  destruct (h !! c) as [f|] eqn:Hc; cbn; [|apply keeps_code_refl].
  destruct (split_last (stack f)) as [[rest v]|]; cbn.
  - eapply keeps_code_insert; eauto.
  - apply keeps_code_refl.
Qed.

Lemma steady_pop_n m n : steady m -> steady (pop_n m n).
Proof.
  intros Hm. induction n as [|n IH]; cbn [pop_n].
  - apply steady_ret.
  - apply steady_bind; [exact Hm|]. intros v.
    apply steady_bind; [exact IH|]. intros vs. apply steady_ret.
Qed.

Lemma steady_next_instruction c : steady (next_instruction c).
Proof.
  intros h. unfold next_instruction, bind, get_ctx, lift, throw, ret.
  destruct (h !! c) as [f|] eqn:Hc; cbn; [|apply keeps_code_refl].
  destruct (instructions f !! pointer f); cbn.
  - eapply keeps_code_insert; eauto.
  - apply keeps_code_refl.
Qed.

Lemma steady_construct r : steady (construct r).
Proof.
  intros h. destruct r as [e|nf]; cbn.
  - apply keeps_code_refl.
  - apply keeps_code_alloc.
Qed.

Ltac steady_step :=
  first
    [ apply steady_ret
    | apply steady_throw
    | apply steady_get_ctx
    | apply steady_stack_pop
    | apply steady_next_instruction
    | apply steady_construct
    | apply steady_pop_n
    | apply steady_update_ctx; intros ?; reflexivity
    | apply steady_bind; [|intros ?] ].

Section EngineMore.

Context (handlers : string -> option (ref -> Instruction -> M unit))
        (call_native : pyval -> list pyval -> native_result)
        (safe_raise : ref -> pyexc -> heap -> heap)
        (finish : ref -> heap -> heap)
        (VSContext_init VSWrappedFunction_call : pyval -> pyexc + VSContext).

Local Abbreviation bridge := (run_natively call_native safe_raise).
Local Abbreviation turn :=
  (dispatch handlers call_native safe_raise finish
     VSContext_init VSWrappedFunction_call).
Local Abbreviation loop :=
  (run_loop handlers call_native safe_raise finish
     VSContext_init VSWrappedFunction_call).
Local Abbreviation run :=
  (run_context handlers call_native safe_raise finish
     VSContext_init VSWrappedFunction_call).
Local Abbreviation built_for :=
  (new_context_for VSContext_init VSWrappedFunction_call).


(** X2.  When the object under the arguments is not callable, the bridge
    does not call anything: it hands a "not callable" TypeError naming the
    object to the fault channel and returns [None]. *)
Theorem bridge_rejects_uncallable (h : heap) c f op below fn args :
  h !! c = Some f ->
  stack f = below ++ fn :: args ->
  callable fn = false ->
  bridge c (mkInstruction op (Some (length args))) h
  = Ok VNone
      (safe_raise c (TypeError_not_callable fn) (<[c := with_stack below f]> h)).
Proof.
  intros Hc Hs Hcall.
  rewrite (run_natively_ok _ _ _ _ _ _ _ _ _ Hc Hs). cbn zeta.
  rewrite Hcall. reflexivity.
Qed.

(** X3.  When the host call raises [e], the bridge does not let [e] escape:
    it hands that same [e] to the fault channel, in the store where the
    arguments and the callee are already popped, and returns [None]. *)
Theorem bridge_routes_exception (h : heap) c f op below fn args e :
  h !! c = Some f ->
  stack f = below ++ fn :: args ->
  callable fn = true ->
  call_native fn args = NRaise e ->
  bridge c (mkInstruction op (Some (length args))) h
  = Ok VNone (safe_raise c e (<[c := with_stack below f]> h)).
Proof.
  intros Hc Hs Hcall Hraise.
  rewrite (run_natively_ok _ _ _ _ _ _ _ _ _ Hc Hs). cbn zeta.
  rewrite Hcall, Hraise. reflexivity.
Qed.

(** X4.  The bridge on a stack that holds fewer than [n + 1] items: the pops
    run the stack empty and the next pop raises IndexError out of the
    bridge; neither the host function nor the fault channel is involved. *)
Theorem bridge_short_stack (h : heap) c f op n :
  h !! c = Some f ->
  length (stack f) <= n ->
  bridge c (mkInstruction op (Some n)) h
  = Raise (IndexError "pop from an empty deque") (<[c := with_stack [] f]> h).
Proof.
  intros Hc Hlen. unfold run_natively. cbn [arg].
  destruct (decide (length (stack f) = n)) as [Heq|Hne].
  - subst n.
    erewrite bind_ok; cycle 1.
    { apply (pop_n_ok c (stack f) h f []); [exact Hc | reflexivity]. }
    apply bind_raise.
    eapply stack_pop_empty; [apply lookup_insert_eq | reflexivity].
  - apply bind_raise.
    apply (pop_n_short c (stack f)); [exact Hc | reflexivity | lia].
Qed.

(** X5.  A class whose [__new__] is a builtin or marked native is called
    through the bridge, and what the bridge calls is the class object found
    on the stack, not the [__new__] that stood in for it in the test: the
    turn is decided by the host call of the class on the arguments. *)
Theorem class_object_is_what_is_called (h : heap) c f below name new args :
  h !! c = Some f -> live (state f) ->
  instructions f !! pointer f = Some (CALL_FUNCTION (length args)) ->
  stack f = below ++ VType name new :: args ->
  isbuiltin new || has_native_invoke new = true ->
  turn c h
  = match call_native (VType name new) args with
    | NReturn v =>
        Ok Continue
          (<[c := with_stack (below ++ [v])
                    (with_state RUNNING (with_pointer (S (pointer f)) f))]> h)
    | NRaise e =>
        (set_state c RUNNING ;; push c VNone ;; ret Continue)
          (safe_raise c e
             (<[c := with_stack below
                       (with_state SUSPENDED (with_pointer (S (pointer f)) f))]> h))
    end.
Proof.
  intros Hc Hlive Hins Hs Hnat.
  destruct (call_native (VType name new) args) as [v|e] eqn:Hcn.
  - rewrite (dispatch_call_native handlers call_native safe_raise finish
               VSContext_init VSWrappedFunction_call
               _ _ _ _ _ _ Hc Hlive Hins Hs Hnat).
    unfold CALL_FUNCTION.
    erewrite bind_ok; cycle 1.
    { erewrite run_natively_ok; [| solve_lookup | exact Hs]. cbn zeta.
      cbn [callable negb]. rewrite Hcn. reflexivity. }
    erewrite resume_after_bridge by solve_lookup.
    rewrite !insert_insert_eq. reflexivity.
  - exact (dispatch_native_fault handlers call_native safe_raise finish
             VSContext_init VSWrappedFunction_call
             _ _ _ _ _ _ _ Hc Hlive Hins Hs Hnat eq_refl Hcn).
Qed.

(** X6.  When building the context of an interpreted callee raises, the
    exception leaves [run_context] as it is.  No context has been created or
    linked, nothing has been popped: the caller still holds the callee and
    the arguments, it is SUSPENDED and its pointer is past the call. *)
Theorem constructor_failure_leaves_operands
    fuel (h : heap) c f below callee args e :
  h !! c = Some f ->
  instructions f !! pointer f = Some (CALL_FUNCTION (length args)) ->
  stack f = below ++ callee :: args ->
  is_native callee = false ->
  built_for (dispatch_target callee) = inl e ->
  run (S fuel) c h
  = Raised e (<[c := with_state SUSPENDED (with_pointer (S (pointer f)) f)]> h).
Proof.
  intros Hc Hins Hs Hnat Hnew.
  rewrite (run_context_unfold _ _ _ _ _ _ _ _ _ _ Hc). cbn [run_loop].
  erewrite dispatch_fetch; [| solve_lookup | reflexivity | exact Hins].
  cbn [opname CALL_FUNCTION]. rewrite String.eqb_refl. unfold CALL_FUNCTION.
  erewrite call_function_constructor_raises;
    [| solve_lookup | exact Hs | exact Hnat | exact Hnew].
  rewrite !insert_insert_eq. reflexivity.
Qed.

(** X7.  For an opcode other than CALL_FUNCTION that has a handler, the turn
    runs the handler on the store in which the pointer is already past the
    instruction.  An exception of the handler is not caught: it leaves
    [run_context] with the store as the handler left it.  When the handler
    returns, the loop goes round again on the handler's store. *)
Theorem handler_turn fuel (h : heap) c f ins i :
  h !! c = Some f -> live (state f) ->
  instructions f !! pointer f = Some ins ->
  opname ins <> "CALL_FUNCTION" ->
  handlers (opname ins) = Some i ->
  loop (S fuel) c h
  = match i c ins (<[c := with_pointer (S (pointer f)) f]> h) with
    | Ok _ h2 => loop fuel c h2
    | Raise e h2 => Raised e h2
    end.
Proof.
  intros Hc Hlive Hins Hop Hi.
  apply String.eqb_neq in Hop.
  cbn [run_loop].
  rewrite (dispatch_fetch _ _ _ _ _ _ _ _ _ _ Hc Hlive Hins), Hop, Hi.
  unfold bind, ret.
  destruct (i c ins _) as [[] h2|e h2]; reflexivity.
Qed.

(** X8.  When a handler leaves the context FINISHED, the next turn calls
    [finish] on it and [run_context] returns [None]; when a handler leaves it
    ERRORED, [run_context] returns [None] and [finish] is not called.  In
    both cases no further instruction is fetched. *)
Theorem run_stops_after_terminal_handler fuel (h h2 : heap) c f ins i :
  h !! c = Some f -> live (state f) ->
  instructions f !! pointer f = Some ins ->
  opname ins <> "CALL_FUNCTION" ->
  handlers (opname ins) = Some i ->
  i c ins (<[c := with_pointer (S (pointer f)) f]> h) = Ok tt h2 ->
  (ctx_state h2 c = Some FINISHED ->
     loop (S (S fuel)) c h = Returned None (finish c h2))
  /\ (ctx_state h2 c = Some ERRORED ->
       loop (S (S fuel)) c h = Returned None h2).
Proof.
  intros Hc Hlive Hins Hop Hi Hrun.
  apply String.eqb_neq in Hop.
  assert (Hstep : loop (S (S fuel)) c h = loop (S fuel) c h2).
  { cbn [run_loop].
    rewrite (dispatch_fetch _ _ _ _ _ _ _ _ _ _ Hc Hlive Hins), Hop, Hi.
    unfold bind at 1. rewrite Hrun. reflexivity. }
  rewrite Hstep. unfold ctx_state.
  split; intros Hst;
    destruct (h2 !! c) as [f2|] eqn:Hc2; try discriminate Hst;
    injection Hst as Hst; cbn [run_loop]; unfold dispatch;
    rewrite (bind_ok _ _ _ _ _ (get_ctx_ok _ _ _ Hc2)), Hst; reflexivity.
Qed.

(** X10.  [run_context] does not look at the state it finds the context in:
    it overwrites it with RUNNING, so the run is the same whatever that
    state was. *)
Theorem run_ignores_incoming_state fuel (h : heap) c f s :
  h !! c = Some f ->
  run fuel c (<[c := with_state s f]> h) = run fuel c h.
Proof.
  intros Hc.
  rewrite (run_context_unfold _ _ _ _ _ _ _ _ _ _ Hc).
  erewrite run_context_unfold by apply lookup_insert_eq.
  rewrite insert_insert_eq. reflexivity.
Qed.

Section Chain.

(** The collaborators leave the links of every context alone, and a newly
    built context has no callee yet. *)
Hypothesis handlers_keep_links :
  forall name i c ins (h : heap),
    handlers name = Some i -> same_links h (store (i c ins h)).
Hypothesis safe_raise_keeps_links :
  forall c e (h : heap), same_links h (safe_raise c e h).
Hypothesis finish_keeps_links :
  forall c (h : heap), same_links h (finish c h).
Hypothesis init_unlinked :
  forall v nf, VSContext_init v = inr nf -> next_ctx nf = None.
Hypothesis wrapped_unlinked :
  forall v nf, VSWrappedFunction_call v = inr nf -> next_ctx nf = None.

Lemma built_unlinked v nf : built_for v = inr nf -> next_ctx nf = None.
Proof.
  unfold new_context_for. destruct (is_wrapped_function v); eauto.
Qed.

Lemma bridge_same_links (h : heap) c f op below fn args :
  h !! c = Some f ->
  stack f = below ++ fn :: args ->
  exists v h3,
    bridge c (mkInstruction op (Some (length args))) h = Ok v h3
    /\ same_links h h3.
Proof.
  intros Hc Hs.
  rewrite (run_natively_ok _ _ _ _ _ _ _ _ _ Hc Hs). cbn zeta.
  assert (Hp : same_links h (<[c := with_stack below f]> h))
    by (eapply same_links_insert; eauto).
  destruct (callable fn); cbn [negb].
  - destruct (call_native fn args) as [v|e]; eexists _, _; (split; [reflexivity|]).
    + exact Hp.
    + eapply same_links_trans; [exact Hp | apply safe_raise_keeps_links].
  - eexists _, _. split; [reflexivity|].
    eapply same_links_trans; [exact Hp | apply safe_raise_keeps_links].
Qed.

Lemma call_function_well_linked (h : heap) c f ins :
  h !! c = Some f ->
  well_linked h ->
  well_linked
    (store (call_function call_native safe_raise
              VSContext_init VSWrappedFunction_call c ins h)).
Proof.
  intros Hc Hw.
  assert (Hw2 : well_linked (<[c := with_state SUSPENDED f]> h)).
  { eapply same_links_well_linked; [|exact Hw].
    eapply same_links_insert; eauto. }
  destruct ins as [op [n|]]; cycle 1.
  { unfold call_function.
    rewrite (bind_ok _ _ _ _ _ (set_state_ok _ _ SUSPENDED _ Hc)).
    erewrite bind_ok by (apply get_ctx_ok; solve_lookup). exact Hw2. }
  destruct (neg_index (stack f) (n + 1)) as [callee|] eqn:Hneg; cycle 1.
  { unfold call_function.
    rewrite (bind_ok _ _ _ _ _ (set_state_ok _ _ SUSPENDED _ Hc)).
    erewrite bind_ok by (apply get_ctx_ok; solve_lookup).
    cbn [arg]. replace (stack (with_state SUSPENDED f)) with (stack f) by reflexivity.
    rewrite Hneg. exact Hw2. }
  apply neg_index_Some in Hneg as (below & args & Hs & <-).
  destruct (is_native callee) eqn:Hnat.
  - rewrite (call_function_native _ _ _ _ _ _ _ _ _ _ _ Hc Hs Hnat).
    destruct (bridge_same_links (<[c := with_state SUSPENDED f]> h) c
                (with_state SUSPENDED f) op below callee args)
      as (v & h3 & Hrun & Hsame); [apply lookup_insert_eq | exact Hs |].
    rewrite (bind_ok _ _ _ _ _ Hrun).
    eapply same_links_well_linked; [apply resume_same_links|].
    eapply same_links_well_linked; [exact Hsame | exact Hw2].
  - destruct (built_for (dispatch_target callee)) as [e|nf] eqn:Hnew.
    + rewrite (call_function_constructor_raises _ _ _ _ _ _ _ _ _ _ _ _
                 Hc Hs Hnat Hnew).
      exact Hw2.
    + rewrite (call_function_interpreted _ _ _ _ _ _ _ _ _ _ _ _
                 Hc Hs Hnat Hnew).
      apply switch_well_linked; [exact Hw | exact Hc |].
      eapply built_unlinked, Hnew.
Qed.

Lemma turn_well_linked (h : heap) c :
  well_linked h -> well_linked (store (turn c h)).
Proof.
  intros Hw. unfold dispatch.
  destruct (h !! c) as [f|] eqn:Hc; cycle 1.
  { unfold bind, get_ctx. rewrite Hc. exact Hw. }
  rewrite (bind_ok _ _ _ _ _ (get_ctx_ok _ _ _ Hc)).
  assert (Hlive :
    well_linked
      (store ((next_instruction <- next_instruction c ;;
               if String.eqb (opname next_instruction) "CALL_FUNCTION" then
                 call_function call_native safe_raise
                   VSContext_init VSWrappedFunction_call c next_instruction
               else
                 match handlers (opname next_instruction) with
                 | None => throw (NotImplementedError (opname next_instruction))
                 | Some i => i c next_instruction ;; ret Continue
                 end) h))).
  { destruct (instructions f !! pointer f) as [ins|] eqn:Hins; cycle 1.
    { unfold next_instruction.
      erewrite bind_raise; [exact Hw|].
      rewrite (bind_ok _ _ _ _ _ (get_ctx_ok _ _ _ Hc)), Hins. reflexivity. }
    rewrite (bind_ok _ _ _ _ _ (next_instruction_ok _ _ _ _ Hc Hins)).
    assert (Hw1 : well_linked (<[c := with_pointer (S (pointer f)) f]> h)).
    { eapply same_links_well_linked; [|exact Hw].
      eapply same_links_insert; eauto. }
    destruct (String.eqb (opname ins) "CALL_FUNCTION").
    - eapply call_function_well_linked; [apply lookup_insert_eq | exact Hw1].
    - destruct (handlers (opname ins)) as [i|] eqn:Hi; [|exact Hw1].
      eapply same_links_well_linked; [|exact Hw1].
      apply bind_same_links; [eapply handlers_keep_links, Hi|].
      intros _ h'. apply same_links_refl. }
  destruct (state f); try exact Hlive.
  - eapply same_links_well_linked; [apply finish_keeps_links | exact Hw].
  - exact Hw.
Qed.

Lemma loop_well_linked fuel c : forall h : heap,
  well_linked h -> well_linked (result_store (loop fuel c h)).
Proof.
  induction fuel as [|fuel IH]; intros h Hw; cbn [run_loop].
  - exact Hw.
  - pose proof (turn_well_linked h c Hw) as Ht.
    destruct (turn c h) as [[|r] h'|e h']; cbn in Ht.
    + apply IH, Ht.
    + exact Ht.
    + exact Ht.
Qed.

(** X9.  The engine keeps the chain of contexts well linked: if every
    [prev_ctx] points into the store and every [next_ctx] points to a
    context whose [prev_ctx] points back, the same holds of the store that
    [run_context] leaves, however it ends, as long as the handlers, the
    fault channel and [finish] leave links alone and a newly built context
    has no callee. *)
Theorem run_keeps_chain_well_linked fuel c (h : heap) :
  well_linked h -> well_linked (result_store (run fuel c h)).
Proof.
  intros Hw. unfold run_context.
  pose proof (set_state_same_links c RUNNING h) as Hsame.
  destruct (set_state c RUNNING h) as [[] h'|e h']; cbn in Hsame.
  - apply loop_well_linked.
    eapply same_links_well_linked; [exact Hsame | exact Hw].
  - eapply same_links_well_linked; [exact Hsame | exact Hw].
Qed.

End Chain.

(** *** What a returned value tells *)

Lemma resume_never_returns c v (h : heap) r h' :
  (set_state c RUNNING ;; push c v ;; ret Continue) h <> Ok (Return r) h'.
Proof.
  unfold bind, ret.
  destruct (set_state c RUNNING h) as [[] h1|e h1]; [|discriminate].
  destruct (push c v h1) as [[] h2|e h2]; discriminate.
Qed.

Lemma call_function_returns (h : heap) c f ins r h' :
  h !! c = Some f ->
  call_function call_native safe_raise
    VSContext_init VSWrappedFunction_call c ins h = Ok (Return r) h' ->
  exists below args nf,
    r = Some (fresh (dom h))
    /\ h' = <[c := suspended_caller f below (fresh (dom h))]>
              (<[fresh (dom h) := pending_callee nf c args]> h).
Proof.
  intros Hc Hrun.
  destruct ins as [op [n|]]; cycle 1.
  { unfold call_function in Hrun.
    rewrite (bind_ok _ _ _ _ _ (set_state_ok _ _ SUSPENDED _ Hc)) in Hrun.
    erewrite bind_ok in Hrun by (apply get_ctx_ok; solve_lookup).
    discriminate Hrun. }
  destruct (neg_index (stack f) (n + 1)) as [callee|] eqn:Hneg; cycle 1.
  { unfold call_function in Hrun.
    rewrite (bind_ok _ _ _ _ _ (set_state_ok _ _ SUSPENDED _ Hc)) in Hrun.
    erewrite bind_ok in Hrun by (apply get_ctx_ok; solve_lookup).
    cbn [arg] in Hrun.
    replace (stack (with_state SUSPENDED f)) with (stack f) in Hrun by reflexivity.
    rewrite Hneg in Hrun. discriminate Hrun. }
  apply neg_index_Some in Hneg as (below & args & Hs & <-).
  destruct (is_native callee) eqn:Hnat.
  - rewrite (call_function_native _ _ _ _ _ _ _ _ _ _ _ Hc Hs Hnat) in Hrun.
    unfold bind at 1 in Hrun.
    destruct (run_natively _ _ _ _ _) as [v h3|e h3]; [|discriminate].
    exfalso. exact (resume_never_returns _ _ _ _ _ Hrun).
  - destruct (built_for (dispatch_target callee)) as [e|nf] eqn:Hnew.
    + rewrite (call_function_constructor_raises _ _ _ _ _ _ _ _ _ _ _ _
                 Hc Hs Hnat Hnew) in Hrun.
      discriminate Hrun.
    + rewrite (call_function_interpreted _ _ _ _ _ _ _ _ _ _ _ _
                 Hc Hs Hnat Hnew) in Hrun.
      injection Hrun as <- <-. eauto.
Qed.

(** What a turn that returns has done: either it found the context terminal,
    or it switched to a new context. *)
Lemma turn_returns (h : heap) c r h' :
  turn c h = Ok (Return r) h' ->
  exists f, h !! c = Some f /\
    ((r = None /\ state f = ERRORED /\ h' = h)
     \/ (r = None /\ state f = FINISHED /\ h' = finish c h)
     \/ (exists ins below args nf,
           live (state f)
           /\ instructions f !! pointer f = Some ins
           /\ opname ins = "CALL_FUNCTION"
           /\ r = Some (fresh (dom h))
           /\ h' = <[c := suspended_caller (with_pointer (S (pointer f)) f)
                            below (fresh (dom h))]>
                     (<[fresh (dom h) := pending_callee nf c args]> h))).
Proof.
  intros Hrun. unfold dispatch in Hrun.
  destruct (h !! c) as [f|] eqn:Hc; cycle 1.
  { unfold bind, get_ctx in Hrun. rewrite Hc in Hrun. discriminate Hrun. }
  exists f. split; [reflexivity|].
  rewrite (bind_ok _ _ _ _ _ (get_ctx_ok _ _ _ Hc)) in Hrun.
  assert (Hlive :
    forall (Hl : live (state f)),
      (next_instruction <- next_instruction c ;;
       if String.eqb (opname next_instruction) "CALL_FUNCTION" then
         call_function call_native safe_raise
           VSContext_init VSWrappedFunction_call c next_instruction
       else
         match handlers (opname next_instruction) with
         | None => throw (NotImplementedError (opname next_instruction))
         | Some i => i c next_instruction ;; ret Continue
         end) h = Ok (Return r) h' ->
      exists ins below args nf,
        live (state f)
        /\ instructions f !! pointer f = Some ins
        /\ opname ins = "CALL_FUNCTION"
        /\ r = Some (fresh (dom h))
        /\ h' = <[c := suspended_caller (with_pointer (S (pointer f)) f)
                         below (fresh (dom h))]>
                  (<[fresh (dom h) := pending_callee nf c args]> h)).
  { intros Hl Hgo.
    destruct (instructions f !! pointer f) as [ins|] eqn:Hins; cycle 1.
    { unfold next_instruction in Hgo.
      erewrite bind_raise in Hgo; [discriminate Hgo|].
      rewrite (bind_ok _ _ _ _ _ (get_ctx_ok _ _ _ Hc)), Hins. reflexivity. }
    rewrite (bind_ok _ _ _ _ _ (next_instruction_ok _ _ _ _ Hc Hins)) in Hgo.
    destruct (String.eqb (opname ins) "CALL_FUNCTION") eqn:Hop.
    - eapply call_function_returns in Hgo; [|apply lookup_insert_eq].
      destruct Hgo as (below & args & nf & -> & ->).
      exists ins, below, args, nf. split; [exact Hl|].
      split; [reflexivity|]. split; [apply String.eqb_eq, Hop|].
      rewrite (dom_update _ _ _ _ Hc). split; [reflexivity|].
      rewrite (insert_insert_ne _ (fresh (dom h)) c)
        by (apply (fresh_ref_ne _ _ _ Hc)).
      rewrite insert_insert_eq. reflexivity.
    - destruct (handlers (opname ins)) as [i|]; [|discriminate Hgo].
      unfold bind, ret in Hgo.
      destruct (i c ins _) as [[] h2|e h2]; discriminate Hgo. }
  destruct (state f) eqn:Hst;
    try (right; right; apply Hlive; [reflexivity | exact Hrun]).
  - right; left. injection Hrun as <- <-. auto.
  - left. injection Hrun as <- <-. auto.
Qed.

Lemma returned_context_differs fuel c new (h h' : heap) :
  run fuel c h = Returned (Some new) h' -> new <> c.
Proof.
  unfold run_context.
  destruct (set_state c RUNNING h) as [[] h0|e h0]; [|discriminate].
  clear h. revert h0.
  induction fuel as [|fuel IH]; intros h Hrun; cbn [run_loop] in Hrun;
    [discriminate|].
  destruct (turn c h) as [[|r] h1|e h1] eqn:Hturn; [eauto | | discriminate].
  injection Hrun as -> ->.
  apply turn_returns in Hturn
    as (f & Hc & [(Hr & _)|[(Hr & _)|(ins & below & args & nf & _ & _ & _ & Hr & ->)]]);
    try discriminate Hr.
  injection Hr as ->. exact (fresh_ref_ne h c f Hc).
Qed.

(** X12.  Whenever [run_context] returns a context, that context is new to
    the store: it is PENDING, its [prev_ctx] is the context that was run,
    which is SUSPENDED and has the new context as its [next_ctx].  This
    holds for every handler table and every other collaborator. *)
Theorem returned_context_is_pending_callee fuel c new (h h' : heap) :
  run fuel c h = Returned (Some new) h' ->
  new <> c
  /\ ctx_state h' new = Some PENDING
  /\ (prev_ctx <$> h' !! new) = Some (Some c)
  /\ ctx_state h' c = Some SUSPENDED
  /\ (next_ctx <$> h' !! c) = Some (Some new).
Proof.
  unfold run_context.
  destruct (set_state c RUNNING h) as [[] h0|e h0]; [|discriminate].
  clear h. revert h0.
  induction fuel as [|fuel IH]; intros h Hrun; cbn [run_loop] in Hrun;
    [discriminate|].
  destruct (turn c h) as [[|r] h1|e h1] eqn:Hturn; [eauto | | discriminate].
  injection Hrun as -> ->.
  apply turn_returns in Hturn
    as (f & Hc & [(Hr & _)|[(Hr & _)|(ins & below & args & nf & _ & _ & _ & Hr & ->)]]);
    try discriminate Hr.
  injection Hr as ->.
  pose proof (fresh_ref_ne h c f Hc) as Hne.
  unfold ctx_state.
  rewrite lookup_insert_eq, lookup_insert_ne, lookup_insert_eq by congruence.
  repeat split. exact Hne.
Qed.

(** X13.  [run_context] returns [None] only from a turn that found the
    context ERRORED, and then that store is what it leaves, or FINISHED, and
    then it leaves what [finish] made of that store. *)
Theorem returned_none_is_terminal fuel c (h h' : heap) :
  run fuel c h = Returned None h' ->
  ctx_state h' c = Some ERRORED
  \/ exists h1, ctx_state h1 c = Some FINISHED /\ h' = finish c h1.
Proof.
  unfold run_context.
  destruct (set_state c RUNNING h) as [[] h0|e h0]; [|discriminate].
  clear h. revert h0.
  induction fuel as [|fuel IH]; intros h Hrun; cbn [run_loop] in Hrun;
    [discriminate|].
  destruct (turn c h) as [[|r] h1|e h1] eqn:Hturn; [eauto | | discriminate].
  injection Hrun as -> ->.
  apply turn_returns in Hturn
    as (f & Hc & [(_ & Hst & ->)|[(_ & Hst & ->)|(ins & below & args & nf & _ & _ & _ & Hr & _)]]);
    try discriminate Hr.
  - left. unfold ctx_state. rewrite Hc, <- Hst. reflexivity.
  - right. exists h. unfold ctx_state. rewrite Hc, <- Hst. auto.
Qed.

Section Code.

(** The collaborators keep the contexts of the store and their code. *)
Hypothesis handlers_steady :
  forall name i c ins, handlers name = Some i -> steady (i c ins).
Hypothesis safe_raise_steady :
  forall c e (h : heap), keeps_code h (safe_raise c e h).
Hypothesis finish_steady :
  forall c (h : heap), keeps_code h (finish c h).

Lemma steady_bridge c ins : steady (bridge c ins).
Proof.
  unfold run_natively. destruct (arg ins) as [n|]; [|apply steady_throw].
  apply steady_bind; [apply steady_pop_n, steady_stack_pop|]. intros args.
  apply steady_bind; [apply steady_stack_pop|]. intros fn.
  destruct (callable fn); cbn [negb].
  - destruct (call_native fn (reverse args)) as [v|e]; [apply steady_ret|].
    apply steady_bind; [apply steady_lift, safe_raise_steady|].
    intros _. apply steady_ret.
  - apply steady_bind; [apply steady_lift, safe_raise_steady|].
    intros _. apply steady_ret.
Qed.

Lemma steady_call_function c ins :
  steady (call_function call_native safe_raise
            VSContext_init VSWrappedFunction_call c ins).
Proof.
  unfold call_function, set_state, set_prev_ctx, set_next_ctx,
    add_done_callback, add_exception_callback, fill_args, push, pop.
  apply steady_bind; [steady_step|]. intros _.
  apply steady_bind; [steady_step|]. intros f.
  destruct (arg ins) as [n|]; [|apply steady_throw].
  destruct (neg_index (stack f) (n + 1)) as [callee|]; [|apply steady_throw].
  cbv zeta.
  destruct (isbuiltin _ || has_native_invoke _).
  - apply steady_bind; [apply steady_bridge|]. intros v.
    repeat steady_step.
  - apply steady_bind.
    { destruct (is_wrapped_function _); apply steady_construct. }
    intros new_ctx.
    do 5 (apply steady_bind; [steady_step|]; intros _).
    apply steady_bind; [apply steady_pop_n, steady_stack_pop|]. intros args.
    repeat steady_step.
Qed.

Lemma steady_turn c : steady (turn c).
Proof.
  unfold dispatch.
  apply steady_bind; [apply steady_get_ctx|]. intros f.
  assert (Hlive :
    steady (next_instruction <- next_instruction c ;;
            if String.eqb (opname next_instruction) "CALL_FUNCTION" then
              call_function call_native safe_raise
                VSContext_init VSWrappedFunction_call c next_instruction
            else
              match handlers (opname next_instruction) with
              | None => throw (NotImplementedError (opname next_instruction))
              | Some i => i c next_instruction ;; ret Continue
              end)).
  { apply steady_bind; [apply steady_next_instruction|]. intros ins.
    destruct (String.eqb (opname ins) "CALL_FUNCTION");
      [apply steady_call_function|].
    destruct (handlers (opname ins)) as [i|] eqn:Hi; [|apply steady_throw].
    apply steady_bind; [eapply handlers_steady, Hi|].
    intros _. apply steady_ret. }
  destruct (state f); try exact Hlive.
  - apply steady_bind; [apply steady_lift, finish_steady|].
    intros _. apply steady_ret.
  - apply steady_ret.
Qed.

Lemma loop_keeps_code fuel c : forall h : heap,
  keeps_code h (result_store (loop fuel c h)).
Proof.
  induction fuel as [|fuel IH]; intros h; cbn [run_loop].
  - apply keeps_code_refl.
  - pose proof (steady_turn c h) as Ht.
    destruct (turn c h) as [[|r] h1|e h1]; cbn in Ht; cbn.
    + eapply keeps_code_trans; [exact Ht | apply IH].
    + exact Ht.
    + exact Ht.
Qed.

(** X11.  [run_context] never drops a context from the store and never
    changes the instruction stream of one, however the run ends, as long as
    the handlers, the fault channel and [finish] do not. *)
Theorem run_keeps_contexts_and_code fuel c (h : heap) :
  keeps_code h (result_store (run fuel c h)).
Proof.
  unfold run_context.
  pose proof (steady_update_ctx c (with_state RUNNING)
                (fun f => eq_refl) h) as Hset.
  fold (set_state c RUNNING) in Hset.
  destruct (set_state c RUNNING h) as [[] h0|e h0]; cbn in Hset.
  - eapply keeps_code_trans; [exact Hset | apply loop_keeps_code].
  - exact Hset.
Qed.

End Code.

(** *** The engine object *)

Local Abbreviation engine_loop :=
  (VansteinEngine_loop handlers call_native safe_raise finish
     VSContext_init VSWrappedFunction_call).
Local Abbreviation engine_run :=
  (VansteinEngine_run_context handlers call_native safe_raise finish
     VSContext_init VSWrappedFunction_call).

(** Following the fields changes nothing in the run. *)
Lemma engine_loop_result fuel c : forall self (h : heap),
  (engine_loop fuel self c h).2 = loop fuel c h.
Proof.
  induction fuel as [|fuel IH]; intros self h; cbn; [reflexivity|].
  destruct (turn c h) as [[|r] h1|e h1]; cbn; [apply IH | reflexivity..].
Qed.

Lemma engine_run_result fuel self c (h : heap) :
  (engine_run fuel self c h).2 = run fuel c h.
Proof.
  unfold VansteinEngine_run_context, run_context.
  destruct (set_state c RUNNING h) as [[] h0|e h0]; [|reflexivity].
  apply engine_loop_result.
Qed.

Lemma engine_loop_context fuel c : forall self (h : heap),
  current_context (engine_loop fuel self c h).1 = current_context self.
Proof.
  induction fuel as [|fuel IH]; intros self h; cbn; [reflexivity|].
  assert (Hself : current_context
            (match fetched c h with
             | Some ins => mkEngine (Some ins) (current_context self)
             | None => self
             end) = current_context self)
    by (destruct (fetched c h); reflexivity).
  destruct (turn c h) as [[|r] h1|e h1]; cbn; [|exact Hself..].
  rewrite IH. exact Hself.
Qed.

Lemma fetched_live (h : heap) c f :
  h !! c = Some f -> live (state f) ->
  fetched c h = instructions f !! pointer f.
Proof.
  intros Hc Hlive. unfold fetched. rewrite Hc, Hlive. reflexivity.
Qed.

Lemma engine_loop_switch fuel c new h' : forall self self' (h : heap),
  engine_loop fuel self c h = (self', Returned (Some new) h') ->
  exists ins g,
    current_instruction self' = Some ins
    /\ opname ins = "CALL_FUNCTION"
    /\ h' !! c = Some g
    /\ pointer g <> 0
    /\ instructions g !! (pointer g - 1) = Some ins.
Proof.
  induction fuel as [|fuel IH]; intros self self' h Hrun; cbn in Hrun;
    [discriminate|].
  destruct (turn c h) as [[|r] h1|e h1] eqn:Hturn; [eauto | | discriminate].
  injection Hrun as <- -> ->.
  apply turn_returns in Hturn
    as (f & Hc & [(Hr & _)|[(Hr & _)|
          (ins & below & args & nf & Hlive & Hins & Hop & _ & ->)]]);
    try discriminate Hr.
  rewrite (fetched_live _ _ _ Hc Hlive), Hins.
  exists ins, (suspended_caller (with_pointer (S (pointer f)) f) below
                 (fresh (dom h))).
  split; [reflexivity|]. split; [exact Hop|].
  split; [apply lookup_insert_eq|]. cbn. split; [lia|].
  rewrite Nat.sub_0_r. exact Hins.
Qed.

(** X14.  When [run_context] returns a new context, the engine's
    [current_context] is still the context that was run, not the one
    returned, and its [current_instruction] is the CALL_FUNCTION instruction
    that made the switch: the instruction just before the pointer of the
    suspended caller. *)
Theorem engine_points_at_call_after_switch
    fuel self self' c new (h h' : heap) :
  VansteinEngine_run_context handlers call_native safe_raise finish
    VSContext_init VSWrappedFunction_call fuel self c h
  = (self', Returned (Some new) h') ->
  current_context self' = Some c
  /\ new <> c
  /\ exists ins g,
       current_instruction self' = Some ins
       /\ opname ins = "CALL_FUNCTION"
       /\ h' !! c = Some g
       /\ pointer g <> 0
       /\ instructions g !! (pointer g - 1) = Some ins.
Proof.
  intros Hrun.
  pose proof (engine_run_result fuel self c h) as Hres.
  rewrite Hrun in Hres. cbn in Hres. symmetry in Hres.
  apply returned_context_differs in Hres.
  unfold VansteinEngine_run_context in Hrun.
  destruct (set_state c RUNNING h) as [[] h0|e h0]; [|discriminate].
  split; [|split; [exact Hres|]].
  - pose proof (engine_loop_context fuel c
                  (mkEngine (current_instruction self) (Some c)) h0) as Hctx.
    rewrite Hrun in Hctx. exact Hctx.
  - eapply engine_loop_switch, Hrun.
Qed.

(** X15.  When the run stops on an opcode that has no handler, the engine's
    [current_instruction] is the offending instruction and its
    [current_context] the context that was run. *)
Theorem engine_points_at_unknown_opcode fuel self (h : heap) c f ins :
  h !! c = Some f ->
  instructions f !! pointer f = Some ins ->
  opname ins <> "CALL_FUNCTION" ->
  handlers (opname ins) = None ->
  engine_run (S fuel) self c h
  = (mkEngine (Some ins) (Some c),
     Raised (NotImplementedError (opname ins))
       (<[c := with_pointer (S (pointer f)) (with_state RUNNING f)]> h)).
Proof.
  intros Hc Hins Hop Hnone.
  apply String.eqb_neq in Hop.
  unfold VansteinEngine_run_context.
  rewrite (set_state_ok _ _ _ _ Hc). cbn [VansteinEngine_loop].
  erewrite fetched_live; [| apply lookup_insert_eq | reflexivity].
  erewrite dispatch_fetch; [| solve_lookup | reflexivity | exact Hins].
  cbn [instructions pointer with_state]. rewrite Hins, Hop, Hnone.
  rewrite insert_insert_eq. reflexivity.
Qed.

End EngineMore.

(** ** The sample world: its collaborators and the statements above *)

Lemma one_context_well_linked f :
  prev_ctx f = None -> next_ctx f = None -> well_linked (one_context f).
Proof.
  intros Hp Hn x g Hx. unfold one_context in Hx.
  apply lookup_singleton_Some in Hx as [_ <-].
  split; intros r Hr; congruence.
Qed.

Lemma safe_raise_spec_same_links c e (h : heap) :
  same_links h (safe_raise_spec c e h).
Proof. intros x. apply raise_into_links. Qed.

Lemma deliver_result_same_links v cbs : forall h : heap,
  same_links h (foldl (deliver_result v) h cbs).
Proof.
  induction cbs as [|cb cbs IH]; intros h; cbn [foldl].
  - apply same_links_refl.
  - eapply same_links_trans; [|apply IH].
    destruct cb as [owner|owner]; cbn; [|apply same_links_refl].
    destruct (h !! owner) as [g|] eqn:Hg; [|apply same_links_refl].
    eapply same_links_insert; eauto.
Qed.

Lemma finish_spec_same_links c (h : heap) :
  same_links h (finish_spec c h).
Proof.
  unfold finish_spec. destruct (h !! c); [|apply same_links_refl].
  apply deliver_result_same_links.
Qed.

Lemma sample_handlers_keep_links name i c ins (h : heap) :
  sample_handlers name = Some i -> same_links h (store (i c ins h)).
Proof.
  unfold sample_handlers.
  destruct (String.eqb name "RETURN_VALUE"); [intros [= <-]|].
  - apply set_state_same_links.
  - destruct (String.eqb name "POP_TOP"); [intros [= <-]|discriminate].
    apply bind_same_links; [apply stack_pop_same_links|].
    intros _ h'. apply same_links_refl.
Qed.

Lemma sample_init_unlinked v nf :
  sample_VSContext_init v = inr nf -> next_ctx nf = None.
Proof. destruct v; cbn; intros [= <-]; reflexivity. Qed.

Lemma sample_wrapped_unlinked v nf :
  sample_wrapped_call v = inr nf -> next_ctx nf = None.
Proof. destruct v; cbn; intros [= <-]; reflexivity. Qed.

Lemma mark_errored_keeps_code (h : heap) c f e :
  h !! c = Some f ->
  keeps_code h (<[c := with_fault (Some e) (with_state ERRORED f)]> h).
Proof. intros Hc. eapply keeps_code_insert; eauto. Qed.

Lemma raise_into_keeps_code fuel : forall c e (h : heap),
  keeps_code h (raise_into fuel c e h).
Proof.
  induction fuel as [|fuel IH]; intros c e h; cbn [raise_into];
    destruct (h !! c) as [f|] eqn:Hc; try apply keeps_code_refl.
  - apply mark_errored_keeps_code, Hc.
  - eapply keeps_code_trans; [apply (mark_errored_keeps_code h c f e Hc)|].
    generalize (<[c := with_fault (Some e) (with_state ERRORED f)]> h).
    induction (on_exception_callbacks f) as [|cb cbs IHcbs]; intros h1.
    + apply keeps_code_refl.
    + cbn [foldl]. eapply keeps_code_trans; [|apply IHcbs].
      destruct cb; [apply keeps_code_refl | apply IH].
Qed.

Lemma deliver_result_keeps_code v cbs : forall h : heap,
  keeps_code h (foldl (deliver_result v) h cbs).
Proof.
  induction cbs as [|cb cbs IH]; intros h; cbn [foldl].
  - apply keeps_code_refl.
  - eapply keeps_code_trans; [|apply IH].
    destruct cb as [owner|owner]; cbn; [|apply keeps_code_refl].
    destruct (h !! owner) as [g|] eqn:Hg; [|apply keeps_code_refl].
    eapply keeps_code_insert; eauto.
Qed.

Lemma finish_spec_keeps_code c (h : heap) :
  keeps_code h (finish_spec c h).
Proof.
  unfold finish_spec. destruct (h !! c); [|apply keeps_code_refl].
  apply deliver_result_keeps_code.
Qed.

Lemma sample_handlers_steady name i c ins :
  sample_handlers name = Some i -> steady (i c ins).
Proof.
  unfold sample_handlers.
  destruct (String.eqb name "RETURN_VALUE"); [intros [= <-]|].
  - unfold set_state. steady_step.
  - destruct (String.eqb name "POP_TOP"); [intros [= <-]|discriminate].
    unfold pop. repeat steady_step.
Qed.


(** X2 at an object marked native that is not callable. *)
Lemma bridge_rejects_uncallable_witness :
  let thing := VObject "Thing" true false in
  let f := root_context [CALL_FUNCTION 1; RETURN_VALUE] [thing; VInt 2] PENDING in
  run_natively sample_call_native safe_raise_spec 0 (CALL_FUNCTION 1)
    (one_context f)
  = Ok VNone
      (safe_raise_spec 0 (TypeError_not_callable thing)
         (<[0 := with_stack [] f]> (one_context f))).
Proof.
  exact (bridge_rejects_uncallable sample_call_native safe_raise_spec
           (one_context (root_context [CALL_FUNCTION 1; RETURN_VALUE] [(VObject "Thing" true false); VInt 2] PENDING))
           0
           (root_context [CALL_FUNCTION 1; RETURN_VALUE] [(VObject "Thing" true false); VInt 2] PENDING)
           "CALL_FUNCTION" [] (VObject "Thing" true false)
           [VInt 2] eq_refl eq_refl eq_refl).
Defined.

(** X3 at a call of [fail]. *)
Lemma bridge_routes_exception_witness :
  let f := root_context [CALL_FUNCTION 2; RETURN_VALUE]
             [VBuiltin "fail"; VInt 2; VInt 3] PENDING in
  run_natively sample_call_native safe_raise_spec 0 (CALL_FUNCTION 2)
    (one_context f)
  = Ok VNone
      (safe_raise_spec 0 (NativeException "ValueError")
         (<[0 := with_stack [] f]> (one_context f))).
Proof.
  exact (bridge_routes_exception sample_call_native safe_raise_spec
           (one_context (root_context [CALL_FUNCTION 2; RETURN_VALUE] [VBuiltin "fail"; VInt 2; VInt 3] PENDING))
           0
           (root_context [CALL_FUNCTION 2; RETURN_VALUE] [VBuiltin "fail"; VInt 2; VInt 3] PENDING)
           "CALL_FUNCTION" [] (VBuiltin "fail")
           [VInt 2; VInt 3] (NativeException "ValueError")
           eq_refl eq_refl eq_refl eq_refl).
Defined.

(** X4 at a stack of one item and a call with two arguments. *)
Lemma bridge_short_stack_witness :
  let f := root_context [CALL_FUNCTION 2] [VInt 1] PENDING in
  run_natively sample_call_native safe_raise_spec 0 (CALL_FUNCTION 2)
    (one_context f)
  = Raise (IndexError "pop from an empty deque")
      (<[0 := with_stack [] f]> (one_context f)).
Proof.
  refine (bridge_short_stack sample_call_native safe_raise_spec
            (one_context (root_context [CALL_FUNCTION 2] [VInt 1] PENDING)) 0
            (root_context [CALL_FUNCTION 2] [VInt 1] PENDING) "CALL_FUNCTION"
            2 eq_refl _).
  cbn. lia.
Defined.

(** X5 at the class [int], called with no argument. *)
Lemma class_object_is_what_is_called_witness :
  let f := root_context [CALL_FUNCTION 0; RETURN_VALUE]
             [VType "int" (VBuiltin "int.__new__")] PENDING in
  sample_dispatch 0 (one_context f)
  = Ok Continue
      (<[0 := with_stack [VInt 0] (with_state RUNNING (with_pointer 1 f))]>
         (one_context f)).
Proof.
  exact (class_object_is_what_is_called
           sample_handlers sample_call_native safe_raise_spec finish_spec
           sample_VSContext_init sample_wrapped_call
           (one_context (root_context [CALL_FUNCTION 0; RETURN_VALUE] [VType "int" (VBuiltin "int.__new__")] PENDING))
           0
           (root_context [CALL_FUNCTION 0; RETURN_VALUE] [VType "int" (VBuiltin "int.__new__")] PENDING)
           [] "int" (VBuiltin "int.__new__") []
           eq_refl eq_refl eq_refl eq_refl eq_refl).
Defined.

(** X6 at the callee 5, which the sample constructor refuses. *)
Lemma constructor_failure_leaves_operands_witness :
  let f := root_context [CALL_FUNCTION 1; RETURN_VALUE] [VInt 5; VInt 2] PENDING in
  sample_run_context 1 0 (one_context f)
  = Raised (AttributeError "object has no attribute '__code__'")
      (<[0 := with_state SUSPENDED (with_pointer 1 f)]> (one_context f)).
Proof.
  exact (constructor_failure_leaves_operands
           sample_handlers sample_call_native safe_raise_spec finish_spec
           sample_VSContext_init sample_wrapped_call
           0
           (one_context (root_context [CALL_FUNCTION 1; RETURN_VALUE] [VInt 5; VInt 2] PENDING))
           0
           (root_context [CALL_FUNCTION 1; RETURN_VALUE] [VInt 5; VInt 2] PENDING)
           [] (VInt 5) [VInt 2] _
           eq_refl eq_refl eq_refl eq_refl eq_refl).
Defined.

(** X7 at POP_TOP on an empty stack: the handler's IndexError escapes. *)
Lemma handler_turn_witness :
  let f := root_context [mkInstruction "POP_TOP" None] [] PENDING in
  sample_run_loop 1 0 (one_context f)
  = Raised (IndexError "pop from an empty deque")
      (<[0 := with_pointer 1 f]> (one_context f)).
Proof.
  refine (handler_turn
            sample_handlers sample_call_native safe_raise_spec finish_spec
            sample_VSContext_init sample_wrapped_call
            0
            (one_context (root_context [mkInstruction "POP_TOP" None] [] PENDING))
            0 (root_context [mkInstruction "POP_TOP" None] [] PENDING)
            (mkInstruction "POP_TOP" None) _
            eq_refl eq_refl eq_refl _ eq_refl).
  cbn. discriminate.
Defined.

(** X8 at a return instruction. *)
Lemma run_stops_after_terminal_handler_witness :
  let f := root_context [RETURN_VALUE] [VInt 7] PENDING in
  sample_run_loop 2 0 (one_context f)
  = Returned None
      (finish_spec 0 (<[0 := with_state FINISHED (with_pointer 1 f)]>
                        (one_context f))).
Proof.
  refine (proj1 (run_stops_after_terminal_handler
            sample_handlers sample_call_native safe_raise_spec finish_spec
            sample_VSContext_init sample_wrapped_call
            0 (one_context (root_context [RETURN_VALUE] [VInt 7] PENDING)) _
            0 (root_context [RETURN_VALUE] [VInt 7] PENDING) RETURN_VALUE _
            eq_refl eq_refl eq_refl _ eq_refl eq_refl) eq_refl).
  cbn. discriminate.
Defined.

(** X9 at a run that switches to a wrapped function. *)
Lemma run_keeps_chain_well_linked_witness :
  well_linked
    (result_store (sample_run_context 3 0 (call_site (VWrapped "f") [VInt 2]))).
Proof.
  apply (run_keeps_chain_well_linked
           sample_handlers sample_call_native safe_raise_spec finish_spec
           sample_VSContext_init sample_wrapped_call
           sample_handlers_keep_links safe_raise_spec_same_links
           finish_spec_same_links sample_init_unlinked sample_wrapped_unlinked).
  apply one_context_well_linked; reflexivity.
Defined.

(** X10 at a context handed over as ERRORED instead of PENDING. *)
Lemma run_ignores_incoming_state_witness :
  let f := root_context [CALL_FUNCTION 2; RETURN_VALUE]
             [VBuiltin "add"; VInt 2; VInt 3] PENDING in
  sample_run_context 3 0 (<[0 := with_state ERRORED f]> (one_context f))
  = sample_run_context 3 0 (one_context f).
Proof.
  exact (run_ignores_incoming_state
           sample_handlers sample_call_native safe_raise_spec finish_spec
           sample_VSContext_init sample_wrapped_call
           3
           (one_context (root_context [CALL_FUNCTION 2; RETURN_VALUE] [VBuiltin "add"; VInt 2; VInt 3] PENDING))
           0
           (root_context [CALL_FUNCTION 2; RETURN_VALUE] [VBuiltin "add"; VInt 2; VInt 3] PENDING)
           ERRORED eq_refl).
Defined.

(** X11 at a run that switches to a wrapped function. *)
Lemma run_keeps_contexts_and_code_witness :
  keeps_code (call_site (VWrapped "f") [VInt 2])
    (result_store (sample_run_context 3 0 (call_site (VWrapped "f") [VInt 2]))).
Proof.
  exact (run_keeps_contexts_and_code
           sample_handlers sample_call_native safe_raise_spec finish_spec
           sample_VSContext_init sample_wrapped_call
           sample_handlers_steady
           (fun c e h => raise_into_keeps_code _ c e h)
           finish_spec_keeps_code
           3 0 (call_site (VWrapped "f") [VInt 2])).
Defined.

(** X12 at a call of a wrapped function. *)
Lemma returned_context_is_pending_callee_witness :
  exists h',
    sample_run_context 1 0 (call_site (VWrapped "f") [VInt 2])
    = Returned (Some 1) h'
    /\ ctx_state h' 1 = Some PENDING
    /\ (prev_ctx <$> h' !! 1) = Some (Some 0)
    /\ ctx_state h' 0 = Some SUSPENDED
    /\ (next_ctx <$> h' !! 0) = Some (Some 1).
Proof.
  eexists. split; [vm_compute; reflexivity|].
  refine (proj2 (returned_context_is_pending_callee
            sample_handlers sample_call_native safe_raise_spec finish_spec
            sample_VSContext_init sample_wrapped_call
            1 0 1 (call_site (VWrapped "f") [VInt 2]) _ _)).
  vm_compute. reflexivity.
Defined.

(** X13 at a run that ends with a return instruction. *)
Lemma returned_none_is_terminal_witness :
  let f := root_context [RETURN_VALUE] [VInt 7] PENDING in
  exists h',
    sample_run_context 2 0 (one_context f) = Returned None h'
    /\ (ctx_state h' 0 = Some ERRORED
        \/ exists h1, ctx_state h1 0 = Some FINISHED /\ h' = finish_spec 0 h1).
Proof.
  cbv zeta. eexists. split; [vm_compute; reflexivity|].
  refine (returned_none_is_terminal
            sample_handlers sample_call_native safe_raise_spec finish_spec
            sample_VSContext_init sample_wrapped_call
            2 0 (one_context (root_context [RETURN_VALUE] [VInt 7] PENDING)) _ _).
  vm_compute. reflexivity.
Defined.

(** X14 at a new engine that runs a call of a wrapped function. *)
Lemma engine_points_at_call_after_switch_witness :
  exists self' h',
    VansteinEngine_run_context
      sample_handlers sample_call_native safe_raise_spec finish_spec
      sample_VSContext_init sample_wrapped_call
      1 VansteinEngine_init 0 (call_site (VWrapped "f") [VInt 2])
    = (self', Returned (Some 1) h')
    /\ current_context self' = Some 0
    /\ exists ins, current_instruction self' = Some ins
                   /\ opname ins = "CALL_FUNCTION".
Proof.
  eexists _, _. split; [vm_compute; reflexivity|].
  destruct (engine_points_at_call_after_switch
              sample_handlers sample_call_native safe_raise_spec finish_spec
              sample_VSContext_init sample_wrapped_call
              1 VansteinEngine_init _ 0 1 (call_site (VWrapped "f") [VInt 2]) _
              ltac:(vm_compute; reflexivity))
    as (Hctx & _ & ins & g & Hins & Hop & _).
  split; [exact Hctx|]. exists ins. split; [exact Hins | exact Hop].
Defined.

(** X15 at the opcode FOO_BAR. *)
Lemma engine_points_at_unknown_opcode_witness :
  let f := root_context [mkInstruction "FOO_BAR" None] [] PENDING in
  VansteinEngine_run_context
    sample_handlers sample_call_native safe_raise_spec finish_spec
    sample_VSContext_init sample_wrapped_call
    1 VansteinEngine_init 0 (one_context f)
  = (mkEngine (Some (mkInstruction "FOO_BAR" None)) (Some 0),
     Raised (NotImplementedError "FOO_BAR")
       (<[0 := with_pointer 1 (with_state RUNNING f)]> (one_context f))).
Proof.
  refine (engine_points_at_unknown_opcode
            sample_handlers sample_call_native safe_raise_spec finish_spec
            sample_VSContext_init sample_wrapped_call
            0 VansteinEngine_init
            (one_context (root_context [mkInstruction "FOO_BAR" None] [] PENDING))
            0 (root_context [mkInstruction "FOO_BAR" None] [] PENDING)
            (mkInstruction "FOO_BAR" None) eq_refl eq_refl _ eq_refl).
  cbn. discriminate.
Defined.
